(** * Media lifecycle and connection cache of masters-backend

    A shallow embedding of
    - [extractPublicId] and the multer [upload] gate of [config/cloudinary.js],
    - the two [connectDB] definitions found in [config/db.js]
      (the cached-promise one and the module-level [conn] one),
    - [createCourse], [updateCourse] and [deleteCourse] of the course
      controller that uploads through [uploadToCloudinary]
      (memory storage, the second controller in [config/db.js]).

    Every call to an external collaborator (MongoDB through mongoose,
    Cloudinary) is an event of a trace; its outcome is read from an
    environment record, so every theorem holds for every behaviour of the
    collaborators. *)

From Stdlib Require Import String Ascii List Bool Arith NArith Lia.
Import ListNotations.
Open Scope string_scope.
Open Scope list_scope.
Set Warnings "-register-all".

(* ================================================================== *)
(** ** JavaScript values and plain objects *)

Inductive JSVal : Type :=
| JUndef
| JNull
| JBool (b : bool)
| JNum (n : nat)
| JStr (s : string)
| JArr (xs : list JSVal)
| JObj (fields : list (string * JSVal)).

(** A plain object ([req.body], [updateData], [courseData]) as an
    association list; the first binding of a key is the live one. *)
Definition Obj := list (string * JSVal).

Fixpoint obj_get (o : Obj) (k : string) : JSVal :=
  match o with
  | [] => JUndef
  | (k', v) :: o' => if String.eqb k k' then v else obj_get o' k
  end.

(** Whether [o] has an own property [k]: [o.hasOwnProperty(k)] when the
    method is the one inherited from [Object.prototype]. *)
Fixpoint obj_has (o : Obj) (k : string) : bool :=
  match o with
  | [] => false
  | (k', _) :: o' => String.eqb k k' || obj_has o' k
  end.

(** [delete o[k]] *)
Definition obj_del (o : Obj) (k : string) : Obj :=
  filter (fun kv => negb (String.eqb k (fst kv))) o.

(** [o[k] = v] *)
Definition obj_set (o : Obj) (k : string) (v : JSVal) : Obj :=
  (k, v) :: obj_del o k.

(** JavaScript truthiness ([NaN] is not among the numbers modelled). *)
Definition truthy (v : JSVal) : bool :=
  match v with
  | JUndef | JNull => false
  | JBool b => b
  | JNum n => negb (Nat.eqb n 0)
  | JStr s => negb (String.eqb s "")
  | JArr _ | JObj _ => true
  end.

(** [v.k] for a property read *)
Definition get_field (v : JSVal) (k : string) : JSVal :=
  match v with
  | JObj o => obj_get o k
  | _ => JUndef
  end.

(** [typeof v === 'object' && Object.keys(v).length === 0] for a truthy
    [v] (an array is an object too). *)
Definition is_empty_object (v : JSVal) : bool :=
  match v with
  | JObj [] | JArr [] => true
  | _ => false
  end.

Definition is_string (v : JSVal) : bool :=
  match v with JStr _ => true | _ => false end.

(** Exceptions: [error.name] and [error.message]. *)
Record Exn := mkExn { exn_name : string; exn_message : string }.

Inductive Result (A : Type) : Type :=
| Ok (a : A)
| Err (e : Exn).
Arguments Ok {A} a.
Arguments Err {A} e.

(* ================================================================== *)
(** ** [String.prototype.split] with a one-character separator *)

Fixpoint js_split (sep : ascii) (s : string) : list string :=
  match s with
  | EmptyString => [EmptyString]
  | String c rest =>
      let parts := js_split sep rest in
      if Ascii.eqb c sep then EmptyString :: parts
      else match parts with
           | p :: ps => String c p :: ps
           | [] => [String c EmptyString]
           end
  end.

(** [xs[i]], with [undefined] out of range *)
Definition js_index (xs : list string) (i : nat) : option string :=
  nth_error xs i.

Definition slash : ascii := "/"%char.
Definition dot : ascii := "."%char.

(** [extractPublicId] of [config/cloudinary.js]:
<<
    try {
      const parts = url.split('/');
      const filename = parts[parts.length - 1];
      const publicId = filename.split('.')[0];
      return publicId;
    } catch (error) {
      throw new Error('Invalid Cloudinary URL format');
    }
>>
    A value that is not a string has no [split] method: the [TypeError]
    is caught and rethrown as ['Invalid Cloudinary URL format']. The
    [undefined] branches of the indexing cannot be taken (a split is never
    empty), see [js_split_nonempty]; they would throw a [TypeError] too. *)
Definition invalid_url : Exn := mkExn "Error" "Invalid Cloudinary URL format".

Definition extractPublicId (url : JSVal) : Result string :=
  match url with
  | JStr s =>
      let parts := js_split slash s in
      match js_index parts (length parts - 1) with
      | Some filename =>
          match js_index (js_split dot filename) 0 with
          | Some publicId => Ok publicId
          | None => Err invalid_url
          end
      | None => Err invalid_url
      end
  | _ => Err invalid_url
  end.

(* ================================================================== *)
(** ** Effects: a trace of collaborator calls, with exceptions *)

(** The calls the controller makes to MongoDB ([Course.*]) and to
    Cloudinary; [EDestroy] carries the public id handed to [deleteImage]. *)
Inductive Event : Type :=
| EFindById (id : string)
| EUpload (buffer : string)
| EDestroy (publicId : string)
| ECreate (data : Obj)
| EUpdate (id : string) (data : Obj)
| EDeleteById (id : string).

Definition M (A : Type) : Type := list Event -> list Event * Result A.

Definition ret {A} (a : A) : M A := fun tr => (tr, Ok a).

Definition bind {A B} (m : M A) (k : A -> M B) : M B :=
  fun tr =>
    match m tr with
    | (tr', Ok a) => k a tr'
    | (tr', Err e) => (tr', Err e)
    end.

Definition throw {A} (e : Exn) : M A := fun tr => (tr, Err e).

(** [try { m } catch (e) { h(e) }] *)
Definition try_catch {A} (m : M A) (h : Exn -> M A) : M A :=
  fun tr =>
    match m tr with
    | (tr', Ok a) => (tr', Ok a)
    | (tr', Err e) => h e tr'
    end.

(** [await] on a collaborator: the call is recorded, then it resolves or
    rejects with the outcome [r]. *)
Definition call {A} (ev : Event) (r : Result A) : M A :=
  fun tr => (tr ++ [ev], r).

Definition lift {A} (r : Result A) : M A := fun tr => (tr, r).

Notation "x <- m ;; k" := (bind m (fun x => k))
  (at level 61, m at next level, right associativity).
Notation "m ;;; k" := (bind m (fun _ => k))
  (at level 61, right associativity).

(* ================================================================== *)
(** ** The course controller *)

(** A stored course as far as the controller reads it: [course.image] is
    a string or [undefined]. *)
Record Course := mkCourse { course_id : string; course_image : JSVal }.

(** Behaviour of the collaborators, one outcome per call. *)
Record Env := mkEnv {
  findById : string -> Result (option Course);
  uploadToCloudinary : string -> Result JSVal;
  destroy : string -> Result JSVal;
  create : Obj -> Result Course;
  findByIdAndUpdate : string -> Obj -> Result (option Course);
  findByIdAndDelete : string -> Result (option Course);
  json_parse : string -> Result JSVal
}.

(** [req.file] after the multer memory storage *)
Record File := mkFile { mimetype : string; size : N; buffer : string }.

Record Request := mkRequest {
  params_id : string;
  body : Obj;
  file : option File;
  validation_ok : bool  (** [validationResult(req).isEmpty()] *)
}.

(** [res.status(s).json({ success, ... })] *)
Record Response := mkResponse { status : nat; success : bool }.

Definition resp200 := mkResponse 200 true.
Definition resp201 := mkResponse 201 true.
Definition resp400 := mkResponse 400 false.
Definition resp404 := mkResponse 404 false.
Definition resp500 := mkResponse 500 false.

Definition no_url_error : Exn :=
  mkExn "Error" "Cloudinary upload failed - no URL returned".

(** [updateData.hasOwnProperty('image')] when the body has an own field
    [hasOwnProperty] (a string or another JSON value, never a function),
    which shadows the inherited method. *)
Definition has_own_property_error : Exn :=
  mkExn "TypeError" "updateData.hasOwnProperty is not a function".

(** [updatedCourse._id] when [findByIdAndUpdate] resolves to [null] *)
Definition null_id_error : Exn :=
  mkExn "TypeError" "Cannot read properties of null (reading '_id')".

(** The [catch] of [createCourse] and [updateCourse]. *)
Definition error_response (e : Exn) : Response :=
  if String.eqb (exn_name e) "ValidationError" then resp400
  else if String.eqb (exn_name e) "CastError" then resp400
  else resp500.

Section Controller.

Variable env : Env.

(** [if (o[k] && typeof o[k] === 'string') { try { o[k] = JSON.parse(o[k]) }
    catch { o[k] = fallback } }] *)
Definition parse_field (o : Obj) (k : string) (fallback : JSVal) : Obj :=
  match obj_get o k with
  | JStr s =>
      if truthy (JStr s) then
        match json_parse env s with
        | Ok v => obj_set o k v
        | Err _ => obj_set o k fallback
        end
      else o
  | _ => o
  end.

(** Parsing of the FormData fields [features] and [instructor]. *)
Definition parse_form_fields (o : Obj) : Obj :=
  parse_field (parse_field o "features" (JArr [])) "instructor" (JObj []).

(** [deleteImage]: [destroy], logging and rethrowing its error. *)
Definition deleteImage (publicId : string) : M JSVal :=
  try_catch (call (EDestroy publicId) (destroy env publicId))
            (fun e => throw e).

(** [uploadResult && uploadResult.secure_url] *)
Definition usable_url (uploadResult : JSVal) : bool :=
  truthy uploadResult && truthy (get_field uploadResult "secure_url").

(** [createCourse]; an early [return] inside the inner [try] is an [inl]. *)
Definition createCourse (req : Request) : M Response :=
  try_catch
    (if negb (validation_ok req) then ret resp400 else
     let courseData := parse_form_fields (body req) in
     match file req with
     | None => ret resp400
     | Some f =>
         step <- try_catch
                   (uploadResult <- call (EUpload (buffer f))
                                         (uploadToCloudinary env (buffer f)) ;;
                    if usable_url uploadResult
                    then ret (inr (obj_set courseData "image"
                                     (get_field uploadResult "secure_url")))
                    else throw no_url_error)
                   (fun _ => ret (inl resp400)) ;;
         match step with
         | inl r => ret r
         | inr courseData' =>
             call (ECreate courseData') (create env courseData') ;;;
             ret resp201
         end
     end)
    (fun e => ret (error_response e)).

(** The best-effort delete of [course.image]:
    [if (course.image) { try { deleteImage(extractPublicId(course.image)) }
    catch { log } }] *)
Definition delete_course_image (course : Course) : M unit :=
  if truthy (course_image course) then
    try_catch
      (publicId <- lift (extractPublicId (course_image course)) ;;
       deleteImage publicId ;;; ret tt)
      (fun _ => ret tt)
  else ret tt.

(** [updateData] before the image handling: the empty [image] object is
    removed, then [features] and [instructor] are parsed. *)
Definition initial_update_data (b : Obj) : Obj :=
  let u := if truthy (obj_get b "image") && is_empty_object (obj_get b "image")
           then obj_del b "image" else b in
  parse_form_fields u.

Definition updateCourse (req : Request) : M Response :=
  try_catch
    (if negb (validation_ok req) then ret resp400 else
     found <- call (EFindById (params_id req)) (findById env (params_id req)) ;;
     match found with
     | None => ret resp404
     | Some course =>
         let updateData := initial_update_data (body req) in
         step <- match file req with
                 | Some f =>
                     try_catch
                       (uploadResult <- call (EUpload (buffer f))
                                             (uploadToCloudinary env (buffer f)) ;;
                        if usable_url uploadResult
                        then delete_course_image course ;;;
                             ret (inr (obj_set updateData "image"
                                         (get_field uploadResult "secure_url")))
                        else throw no_url_error)
                       (fun _ => ret (inl resp400))
                 | None =>
                     if obj_has updateData "hasOwnProperty"
                     then throw has_own_property_error
                     else ret (inr (if obj_has updateData "image" then updateData
                                    else obj_set updateData "image" (course_image course)))
                 end ;;
         match step with
         | inl r => ret r
         | inr updateData' =>
             updated <- call (EUpdate (params_id req) updateData')
                             (findByIdAndUpdate env (params_id req) updateData') ;;
             match updated with
             | None => throw null_id_error
             | Some _ => ret resp200
             end
         end
     end)
    (fun e => ret (error_response e)).

Definition deleteCourse (req : Request) : M Response :=
  try_catch
    (found <- call (EFindById (params_id req)) (findById env (params_id req)) ;;
     match found with
     | None => ret resp404
     | Some course =>
         delete_course_image course ;;;
         call (EDeleteById (params_id req)) (findByIdAndDelete env (params_id req)) ;;;
         ret resp200
     end)
    (fun _ => ret resp500).

End Controller.

(** Running a handler from an empty trace. *)
Definition run {A} (m : M A) : list Event * Result A := m [].

(** The public ids handed to [deleteImage] along a trace. *)
Fixpoint destroys (tr : list Event) : list string :=
  match tr with
  | [] => []
  | EDestroy p :: tr' => p :: destroys tr'
  | _ :: tr' => destroys tr'
  end.

(** The calls issued by [delete_course_image]. *)
Definition old_image_deletes (c : Course) : list Event :=
  if truthy (course_image c) then
    match extractPublicId (course_image c) with
    | Ok publicId => [EDestroy publicId]
    | Err _ => []
    end
  else [].

(** The response of [updateCourse] once [findByIdAndUpdate] has answered. *)
Definition update_response (r : Result (option Course)) : Response :=
  match r with
  | Ok (Some _) => resp200
  | Ok None => error_response null_id_error
  | Err e => error_response e
  end.

(* ================================================================== *)
(** ** A concrete run *)

Module Sample.

Definition old_url : string :=
  "https://res.cloudinary.com/demo/image/upload/v1/masters-academy/old1.jpg".
Definition new_url : string :=
  "https://res.cloudinary.com/demo/image/upload/v2/masters-academy/new2.png".

Definition course1 : Course := mkCourse "c1" (JStr old_url).

(** Every collaborator succeeds; [create] succeeds iff [create_ok]. *)
Definition env_with (create_ok update_ok : bool) : Env :=
  mkEnv (fun _ => Ok (Some course1))
        (fun _ => Ok (JObj [("secure_url", JStr new_url)]))
        (fun _ => Ok (JObj [("result", JStr "ok")]))
        (fun _ => if create_ok then Ok course1
                  else Err (mkExn "ValidationError" "Course validation failed"))
        (fun _ _ => if update_ok then Ok (Some course1)
                    else Err (mkExn "ValidationError" "Validation failed"))
        (fun _ => Ok (Some course1))
        (fun _ => Ok (JArr [])).

(** The upload resolves with no [secure_url]. *)
Definition env_no_url : Env :=
  mkEnv (fun _ => Ok (Some course1))
        (fun _ => Ok (JObj [("public_id", JStr "new2")]))
        (fun _ => Ok (JObj [("result", JStr "ok")]))
        (fun _ => Ok course1)
        (fun _ _ => Ok (Some course1))
        (fun _ => Ok (Some course1))
        (fun _ => Ok (JArr [])).

Definition png : File := mkFile "image/png" 1024%N "buf".

Definition req_with_file : Request :=
  mkRequest "c1" [("title", JStr "X")] (Some png) true.

Definition req_without_file : Request :=
  mkRequest "c1" [("title", JStr "Y")] None true.

End Sample.

Fixpoint has_char (c : ascii) (s : string) : bool :=
  match s with
  | EmptyString => false
  | String c' s' => Ascii.eqb c' c || has_char c s'
  end.

(* ================================================================== *)
(** ** The connection cache ([connectDB]) under the event loop *)

(** [xs[i] = x], nothing out of range *)
Fixpoint set_nth {A} (xs : list A) (i : nat) (x : A) : list A :=
  match xs, i with
  | [], _ => []
  | _ :: xs', 0 => x :: xs'
  | y :: xs', S i' => y :: set_nth xs' i' x
  end.

(** The outcome of one [mongoose.connect] attempt. *)
Inductive Outcome : Type :=
| Connected (handle : nat)
| Failed (error : nat).

Inductive AttemptSt : Type :=
| Pending
| Settled (o : Outcome).

(** One invocation of [connectDB]: not started yet, suspended on an
    attempt, or returned ([return] / [throw]) with an outcome. *)
Inductive CallerSt : Type :=
| Idle
| Waiting (attempt : nat)
| Returned (o : Outcome).

(** Process state: [cached.conn], [cached.promise] (the attempt whose
    chained promise it holds), the attempts started (one per call to
    [mongoose.connect]), the invocations, the microtask queue of
    suspended invocations ready to resume, and whether [process.exit]
    ran. *)
Record Cache := mkCache {
  conn : option nat;
  promise : option nat;
  attempts : list AttemptSt;
  callers : list CallerSt;
  microtasks : list (nat * Outcome);
  exited : bool
}.

Definition set_conn (c : option nat) (st : Cache) : Cache :=
  mkCache c (promise st) (attempts st) (callers st) (microtasks st) (exited st).
Definition set_promise (p : option nat) (st : Cache) : Cache :=
  mkCache (conn st) p (attempts st) (callers st) (microtasks st) (exited st).
Definition set_attempts (a : list AttemptSt) (st : Cache) : Cache :=
  mkCache (conn st) (promise st) a (callers st) (microtasks st) (exited st).
Definition set_caller (i : nat) (c : CallerSt) (st : Cache) : Cache :=
  mkCache (conn st) (promise st) (attempts st) (set_nth (callers st) i c)
          (microtasks st) (exited st).
Definition set_microtasks (q : list (nat * Outcome)) (st : Cache) : Cache :=
  mkCache (conn st) (promise st) (attempts st) (callers st) q (exited st).
Definition set_exited (b : bool) (st : Cache) : Cache :=
  mkCache (conn st) (promise st) (attempts st) (callers st) (microtasks st) b.

(** A cold process with [n] invocations to come. *)
Definition cold (n : nat) : Cache := mkCache None None [] (repeat Idle n) [] false.

(** [await p] for the promise of attempt [k]: a settled promise resumes
    the invocation in a microtask, a pending one when it settles. *)
Definition await_attempt (k i : nat) (st : Cache) : Cache :=
  let st' := set_caller i (Waiting k) st in
  match nth_error (attempts st) k with
  | Some (Settled o) => set_microtasks (microtasks st' ++ [(i, o)]) st'
  | _ => st'
  end.

(** Starting [mongoose.connect]: a new pending attempt. *)
Definition start_attempt (st : Cache) : Cache :=
  set_attempts (attempts st ++ [Pending]) st.

(** The invocations suspended on attempt [k], in order. *)
Fixpoint waiters_from (k start : nat) (cs : list CallerSt) : list nat :=
  match cs with
  | [] => []
  | Waiting k' :: cs' =>
      if Nat.eqb k k' then start :: waiters_from k (S start) cs'
      else waiters_from k (S start) cs'
  | _ :: cs' => waiters_from k (S start) cs'
  end.

Definition waiters (k : nat) (st : Cache) : list nat := waiters_from k 0 (callers st).

(** Attempt [k] settles with [o]: its waiters are queued to resume. *)
Definition settle_attempt (k : nat) (o : Outcome) (st : Cache) : Cache :=
  set_microtasks (microtasks st ++ map (fun i => (i, o)) (waiters k st))
    (set_attempts (set_nth (attempts st) k (Settled o)) st).

Module CachedPromise.
(** The first [connectDB] of [config/db.js]:
<<
    if (cached.conn) return cached.conn;
    if (!cached.promise) {
      cached.promise = mongoose.connect(uri, opts)
        .then((mongoose) => mongoose)
        .catch((error) => { cached.promise = null; throw error; });
    }
    try { cached.conn = await cached.promise; }
    catch (e) { cached.promise = null; throw e; }
    return cached.conn;
>> *)
Definition connectDB_call (i : nat) (st : Cache) : Cache :=
  match conn st with
  | Some h => set_caller i (Returned (Connected h)) st
  | None =>
      match promise st with
      | None =>
          let k := length (attempts st) in
          await_attempt k i (set_promise (Some k) (start_attempt st))
      | Some k => await_attempt k i st
      end
  end.

(** The raw connect settles; the [.catch] of the chain clears
    [cached.promise] on failure before the chained promise rejects. *)
Definition settle (k : nat) (o : Outcome) (st : Cache) : Cache :=
  let st' := match o with
             | Connected _ => st
             | Failed _ => set_promise None st
             end in
  settle_attempt k o st'.

(** The first queued invocation resumes after its [await]. *)
Definition resume (st : Cache) : Cache :=
  match microtasks st with
  | [] => st
  | (i, o) :: q =>
      let st' := set_microtasks q st in
      match o with
      | Connected h => set_caller i (Returned o) (set_conn (Some h) st')
      | Failed _ => set_caller i (Returned o) (set_promise None st')
      end
  end.
(** One event-loop step: a new invocation or a settling connect runs as a
    macrotask, only when the microtask queue is empty; otherwise the next
    suspended invocation resumes. *)
Inductive step : Cache -> Cache -> Prop :=
| step_call i st :
    microtasks st = [] -> nth_error (callers st) i = Some Idle ->
    step st (connectDB_call i st)
| step_settle k o st :
    microtasks st = [] -> nth_error (attempts st) k = Some Pending ->
    step st (settle k o st)
| step_resume st :
    microtasks st <> [] -> step st (resume st).

Inductive reachable : Cache -> Prop :=
| reach_cold n : reachable (cold n)
| reach_step st st' : reachable st -> step st st' -> reachable st'.

Fixpoint drain (n : nat) (st : Cache) : Cache :=
  match n with
  | 0 => st
  | S n' => drain n' (resume st)
  end.

(** Run every queued microtask. *)
Definition flush (st : Cache) : Cache := drain (length (microtasks st)) st.

(** Invocations [0 .. n-1] start one after the other. *)
Definition call_all (n : nat) (st : Cache) : Cache :=
  fold_left (fun st i => connectDB_call i st) (seq 0 n) st.
(** The single-attempt invariant: a pending attempt is the one
    [cached.promise] holds, with no connection cached; nothing is pending
    while invocations wait to resume; [cached.promise] names a started
    attempt; the process never exits. *)
Definition Inv (st : Cache) : Prop :=
  (forall k, nth_error (attempts st) k = Some Pending ->
             promise st = Some k /\ conn st = None) /\
  (microtasks st <> [] -> forall k, nth_error (attempts st) k <> Some Pending) /\
  (forall k, promise st = Some k -> k < length (attempts st)) /\
  exited st = false.
End CachedPromise.


Module ModuleConn.
(** The second [connectDB] of [config/db.js]:
<<
    if (conn) return conn;
    try {
      conn = await mongoose.connect(uri, { serverSelectionTimeoutMS: 5000 });
      mongoose.connection.on('error', ...);          // conn = null
      mongoose.connection.on('disconnected', ...);   // conn = null
      return conn;
    } catch (error) { process.exit(1); }
>> *)
Definition connectDB_call (i : nat) (st : Cache) : Cache :=
  match conn st with
  | Some h => set_caller i (Returned (Connected h)) st
  | None => await_attempt (length (attempts st)) i (start_attempt st)
  end.

Definition settle (k : nat) (o : Outcome) (st : Cache) : Cache :=
  settle_attempt k o st.

(** On failure the invocation runs [process.exit(1)] and never returns. *)
Definition resume (st : Cache) : Cache :=
  match microtasks st with
  | [] => st
  | (i, o) :: q =>
      let st' := set_microtasks q st in
      match o with
      | Connected h => set_caller i (Returned o) (set_conn (Some h) st')
      | Failed _ => set_exited true st'
      end
  end.

(** The ['error'] or ['disconnected'] event of the connection. *)
Definition dropped (st : Cache) : Cache := set_conn None st.
Fixpoint drain (n : nat) (st : Cache) : Cache :=
  match n with
  | 0 => st
  | S n' => drain n' (resume st)
  end.

Definition flush (st : Cache) : Cache := drain (length (microtasks st)) st.

Definition call_all (n : nat) (st : Cache) : Cache :=
  fold_left (fun st i => connectDB_call i st) (seq 0 n) st.
End ModuleConn.

(** A cold process on which one invocation is suspended on the first
    attempt. *)
Definition one_waiting : Cache := CachedPromise.connectDB_call 0 (cold 2).

(* ================================================================== *)
(** ** The upload gate *)

(** [limits: { fileSize: 5 * 1024 * 1024 }] *)
Definition fileSizeLimit : N := 5 * 1024 * 1024.

(** [fileFilter]: [file.mimetype.startsWith('image/')] *)
Definition fileFilter (f : File) : bool := String.prefix "image/" (mimetype f).

Definition only_images_error : Exn := mkExn "Error" "Only image files are allowed!".
Definition file_too_large_error : Exn := mkExn "MulterError" "File too large".

Inductive MulterResult : Type :=
| MulterNext (f : option File)   (** [next()] with [req.file] set or not *)
| MulterError (e : Exn).          (** [next(err)] *)

(** [upload.single('image')] with the memory storage of
    [config/cloudinary.js]: multer asks [fileFilter] before handing the
    stream to the storage, and the memory storage fails with
    [LIMIT_FILE_SIZE] once more than [fileSize] bytes arrive. Nothing is
    sent to Cloudinary here. [incoming] is the file of the [image] field;
    multer's other rejections (a file under another field name:
    [LIMIT_UNEXPECTED_FILE]; busboy's limits on fields and parts; a
    malformed multipart body) are not modelled: they only turn more
    requests into [next(err)]. *)
Definition upload_single (incoming : option File) : MulterResult :=
  match incoming with
  | None => MulterNext None
  | Some f =>
      if fileFilter f then
        if (fileSizeLimit <? size f)%N then MulterError file_too_large_error
        else MulterNext (Some f)
      else MulterError only_images_error
  end.

Record Incoming := mkIncoming {
  in_id : string;
  in_body : Obj;
  in_file : option File;
  in_valid : bool
}.

Inductive RouteOutcome : Type :=
| Handled (r : Response)
| ToErrorHandler (e : Exn).

(** Modelled from the spec: the course routes ([routes/courseRoutes.js]
    is not among the sources) run [upload.single('image')] before the
    controller, so that a locally rejected upload is answered with
    [UploadRejected] before any network call; an error of the middleware
    goes to the error middleware and the controller does not run. *)
Definition course_route (handler : Request -> M Response) (r : Incoming)
  : list Event * Result RouteOutcome :=
  match upload_single (in_file r) with
  | MulterError e => ([], Ok (ToErrorHandler e))
  | MulterNext f =>
      let '(tr, res) := run (handler (mkRequest (in_id r) (in_body r) f (in_valid r))) in
      (tr, match res with Ok resp => Ok (Handled resp) | Err e => Err e end)
  end.

(** Any number of event-loop steps of the first [connectDB]. *)
Inductive cp_steps : Cache -> Cache -> Prop :=
| cp_refl st : cp_steps st st
| cp_next st st' st'' :
    CachedPromise.step st st' -> cp_steps st' st'' -> cp_steps st st''.

(* ================================================================== *)
(** ** The configuration check of [config/cloudinary.js] *)

(** [process.env]: a variable is unset or holds a string. *)
Definition ProcessEnv := string -> option string.

Definition required_vars : list string :=
  ["CLOUDINARY_CLOUD_NAME"; "CLOUDINARY_API_KEY"; "CLOUDINARY_API_SECRET"].

(** [!process.env[key]]: unset or the empty string *)
Definition env_missing (penv : ProcessEnv) (key : string) : bool :=
  match penv key with
  | None => true
  | Some v => String.eqb v ""
  end.

(** [validateCloudinaryConfig]:
<<
    const missing = required.filter(key => !process.env[key]);
    if (missing.length > 0) {
      throw new Error(`Cloudinary configuration missing: ${missing.join(', ')}`);
    }
>> *)
Definition validateCloudinaryConfig (penv : ProcessEnv) : Result unit :=
  let missing := filter (env_missing penv) required_vars in
  if Nat.ltb 0 (length missing)
  then Err (mkExn "Error"
              ("Cloudinary configuration missing: " ++ String.concat ", " missing))
  else Ok tt.

(* ================================================================== *)
(** ** [extractPublicId] of the other copy of [config/cloudinary.js] *)

(** [unnamed/part_000] has no [try]/[catch]:
<<
    const parts = url.split('/');
    const filename = parts[parts.length - 1];
    return filename.split('.')[0];
>>
    [url.split] on a value that is not a string throws a [TypeError]; an
    index out of range would give [undefined]. *)
Definition split_type_error (url : JSVal) : Exn :=
  match url with
  | JUndef => mkExn "TypeError" "Cannot read properties of undefined (reading 'split')"
  | JNull => mkExn "TypeError" "Cannot read properties of null (reading 'split')"
  | _ => mkExn "TypeError" "url.split is not a function"
  end.

Definition extractPublicId_unguarded (url : JSVal) : Result JSVal :=
  match url with
  | JStr s =>
      let parts := js_split slash s in
      match js_index parts (length parts - 1) with
      | Some filename =>
          match js_index (js_split dot filename) 0 with
          | Some publicId => Ok (JStr publicId)
          | None => Ok JUndef
          end
      | None => Err (split_type_error JUndef)
      end
  | _ => Err (split_type_error url)
  end.

(* ================================================================== *)
(** ** The first course controller of [config/db.js]

    Its [upload] is multer with the [CloudinaryStorage] of
    [multer-storage-cloudinary]: the file is on Cloudinary before the
    controller runs, and [req.file] is the object the storage produced,
    with the URL in [path]. *)

Record RequestV1 := mkRequestV1 {
  v1_id : string;
  v1_body : Obj;
  v1_file : JSVal;   (** [req.file]: [undefined] or the storage's object *)
  v1_valid : bool    (** [validationResult(req).isEmpty()] *)
}.

(** [s.includes(sub)] *)
Fixpoint js_includes (s sub : string) : bool :=
  match s with
  | EmptyString => String.prefix sub s
  | String _ s' => String.prefix sub s || js_includes s' sub
  end.

(** [Object.keys(v).length === 0] for a truthy [v] *)
Definition no_keys (v : JSVal) : bool :=
  match v with
  | JObj o => match o with [] => true | _ => false end
  | JArr xs => match xs with [] => true | _ => false end
  | JStr s => String.eqb s ""
  | _ => true
  end.

(** [!p || typeof p !== 'string' || p.length === 0
     || !p.includes('res.cloudinary.com')] *)
Definition invalid_path (p : JSVal) : bool :=
  negb (truthy p) || negb (is_string p) ||
  match p with
  | JStr s => Nat.eqb (String.length s) 0 || negb (js_includes s "res.cloudinary.com")
  | _ => true
  end.

Section ControllerV1.

Variable env : Env.

(** [if (!req.file || Object.keys(req.file).length === 0) return 400;
     if (invalid path) return 400;] *)
Definition file_rejected (f : JSVal) : bool :=
  negb (truthy f) || no_keys f || invalid_path (get_field f "path").

(** [createCourse] of the first controller; [courseData] aliases
    [req.body]. *)
Definition createCourseV1 (req : RequestV1) : M Response :=
  try_catch
    (if negb (v1_valid req) then ret resp400 else
     let courseData := parse_form_fields env (v1_body req) in
     let f := v1_file req in
     let step :=
       if truthy f then
         if file_rejected f then inl resp400
         else inr (obj_set courseData "image" (get_field f "path"))
       else inr courseData in
     match step with
     | inl r => ret r
     | inr courseData' =>
         call (ECreate courseData') (create env courseData') ;;;
         ret resp201
     end)
    (fun e => ret (error_response e)).

(** [updateCourse] of the first controller. *)
Definition updateCourseV1 (req : RequestV1) : M Response :=
  try_catch
    (if negb (v1_valid req) then ret resp400 else
     found <- call (EFindById (v1_id req)) (findById env (v1_id req)) ;;
     match found with
     | None => ret resp404
     | Some course =>
         let updateData := initial_update_data env (v1_body req) in
         let f := v1_file req in
         step <- (if truthy f then
                   if file_rejected f then ret (inl resp400)
                   else delete_course_image env course ;;;
                        ret (inr (obj_set updateData "image" (get_field f "path")))
                 else if obj_has updateData "hasOwnProperty"
                 then throw has_own_property_error
                 else ret (inr (if obj_has updateData "image" then updateData
                                else obj_set updateData "image" (course_image course)))) ;;
         match step with
         | inl r => ret r
         | inr updateData' =>
             updated <- call (EUpdate (v1_id req) updateData')
                             (findByIdAndUpdate env (v1_id req) updateData') ;;
             match updated with
             | None => throw null_id_error
             | Some _ => ret resp200
             end
         end
     end)
    (fun e => ret (error_response e)).

End ControllerV1.

(* ================================================================== *)
(** ** The course listing ([getCourses], the same in both controllers) *)

(** The two queries of [getCourses]:
    [Course.find(query).sort({ createdAt: -1 }).limit(limit).skip(skip)],
    the page the database returns for this query, limit and skip, and
    [Course.countDocuments(query)]. Each query is answered on its own:
    courses with equal [createdAt] may come in a different order from one
    query to the next. *)
Record ListEnv := mkListEnv {
  find_page : Obj -> nat -> nat -> Result (list Course);
  countDocuments : Obj -> Result nat
}.

(** A destructured property with a default, [{ k = d } = o]: the default
    replaces [undefined] only. *)
Definition with_default (v d : JSVal) : JSVal :=
  match v with JUndef => d | _ => v end.

(** [const query = { isActive }; if (category) query.category = category;
     if (level) query.level = level;
     if (search) query.$text = { $search: search };] *)
Definition build_query (q : Obj) : Obj :=
  let query := [("isActive", with_default (obj_get q "isActive") (JBool true))] in
  let query := if truthy (obj_get q "category")
               then obj_set query "category" (obj_get q "category") else query in
  let query := if truthy (obj_get q "level")
               then obj_set query "level" (obj_get q "level") else query in
  if truthy (obj_get q "search")
  then obj_set query "$text" (JObj [("$search", obj_get q "search")])
  else query.

Fixpoint digits_value (acc : N) (s : string) : option N :=
  match s with
  | EmptyString => Some acc
  | String c s' =>
      let n := nat_of_ascii c in
      if Nat.leb 48 n && Nat.leb n 57
      then digits_value (acc * 10 + N.of_nat (n - 48))%N s'
      else None
  end.

(** [Number.MAX_SAFE_INTEGER], [2^53 - 1]: up to it a JS number holds an
    integer exactly. *)
Definition max_safe : N := 9007199254740991%N.

Definition safe_nat (n : N) : option nat :=
  if (n <=? max_safe)%N then Some (N.to_nat n) else None.

(** The natural number a query parameter denotes for [limit * 1],
    [page - 1] and [parseInt(page)]: a number, or a non-empty string of
    decimal digits, of at most [2^53 - 1], where these agree and are
    exact. Other values ([NaN], negative or fractional numbers, larger
    integers, which JS rounds) are outside the model. *)
Definition js_to_nat (v : JSVal) : option nat :=
  match v with
  | JNum n => safe_nat (N.of_nat n)
  | JStr ((String _ _) as s) =>
      match digits_value 0 s with Some n => safe_nat n | None => None end
  | _ => None
  end.

(** [Math.ceil(total / limit)]; [None] is the [Infinity] or [NaN] of a
    zero [limit], which [res.json] writes as [null]. For [total] and
    [limit] up to [2^53 - 1] the floating-point quotient is never rounded
    onto an integer it does not equal, so the ceiling is exact. *)
Definition page_count (total limit : nat) : option nat :=
  if Nat.eqb limit 0 then None else Some ((total + limit - 1) / limit).

(** [.sort(...).limit(limit).skip(skip)] on a database that holds the
    matching courses in the order [all]: MongoDB skips first, then
    limits, and a limit of 0 is no limit. *)
Definition page_window (skip limit : nat) (all : list Course) : list Course :=
  if Nat.eqb limit 0 then skipn skip all else firstn limit (skipn skip all).

(** [{ courses, pagination: { current, pages, total } }] *)
Record Listing := mkListing {
  courses : list Course;
  current : nat;
  pages : option nat;
  total : nat
}.

(** [getCourses]: [Some (Ok l)] is the [200] answer with [l], [Some (Err e)]
    the [500] of the [catch]. [None] when [page] or [limit] is outside the
    modelled numbers, when [page] is 0 (a skip of [-limit], or [-0]), or
    when the skip [(page - 1) * limit] or the count exceeds [2^53 - 1]. *)
Definition getCourses (lenv : ListEnv) (q : Obj) : option (Result Listing) :=
  match js_to_nat (with_default (obj_get q "page") (JNum 1)),
        js_to_nat (with_default (obj_get q "limit") (JNum 10)) with
  | Some page, Some limit =>
      let skip := ((page - 1) * limit)%nat in
      if Nat.eqb page 0 || (max_safe <? N.of_nat skip)%N then None else
      let query := build_query q in
      match find_page lenv query limit skip with
      | Err e => Some (Err e)
      | Ok cs =>
          match countDocuments lenv query with
          | Err e => Some (Err e)
          | Ok total =>
              if (max_safe <? N.of_nat total)%N then None
              else Some (Ok (mkListing cs page (page_count total limit) total))
          end
      end
  | _, _ => None
  end.

(** The environment [env] with another [destroy]. *)
Definition with_destroy (env : Env) (d : string -> Result JSVal) : Env :=
  mkEnv (findById env) (uploadToCloudinary env) d (create env)
        (findByIdAndUpdate env) (findByIdAndDelete env) (json_parse env).

(* ================================================================== *)
(** ** More concrete inputs *)

Module ListSample.

Definition c (id : string) : Course := mkCourse id (JStr Sample.old_url).

Definition all3 : list Course := [c "a"; c "b"; c "c"].

Definition lenv3 : ListEnv :=
  mkListEnv (fun _ lim sk => Ok (page_window sk lim all3)) (fun _ => Ok 3).

Definition q2 : Obj := [("limit", JStr "2")].

Definition q0 : Obj := [("limit", JStr "0"); ("page", JStr "3")].

End ListSample.

Definition req_own_has_own_property : Request :=
  mkRequest "c1" [("title", JStr "Y"); ("hasOwnProperty", JStr "x")] None true.

Definition penv_no_key : ProcessEnv :=
  fun k => if String.eqb k "CLOUDINARY_API_KEY" then Some "" else Some "x".

Definition env_bad_json : Env :=
  mkEnv (fun _ => Ok (Some Sample.course1))
        (fun _ => Ok (JObj [("secure_url", JStr Sample.new_url)]))
        (fun _ => Ok (JObj [("result", JStr "ok")]))
        (fun _ => Ok Sample.course1)
        (fun _ _ => Ok (Some Sample.course1))
        (fun _ => Ok (Some Sample.course1))
        (fun _ => Err (mkExn "SyntaxError" "Unexpected token")).

Definition req_bad_features : Request :=
  mkRequest "c1" [("title", JStr "X"); ("features", JStr "[oops")] (Some Sample.png) true.

Definition req_empty_image : Request :=
  mkRequest "c1" [("image", JObj [])] None true.

Definition env_cast_error : Env :=
  mkEnv (fun _ => Err (mkExn "CastError" "Cast to ObjectId failed"))
        (fun _ => Ok (JObj [("secure_url", JStr Sample.new_url)]))
        (fun _ => Ok (JObj [("result", JStr "ok")]))
        (fun _ => Ok Sample.course1)
        (fun _ _ => Ok (Some Sample.course1))
        (fun _ => Ok (Some Sample.course1))
        (fun _ => Ok (JArr [])).

Definition req_v1_bad_path : RequestV1 :=
  mkRequestV1 "c1" [("title", JStr "X")]
    (JObj [("path", JStr "/tmp/uploads/new2.png")]) true.

Definition req_v1_good_path : RequestV1 :=
  mkRequestV1 "c1" [("title", JStr "X")]
    (JObj [("path", JStr Sample.new_url)]) true.

Definition hot : Cache :=
  mkCache (Some 7) (Some 0) [Settled (Connected 7)] [Returned (Connected 7); Idle] [] false.

Definition hot2 : Cache :=
  mkCache (Some 7) None [Settled (Connected 7)] [Returned (Connected 7); Idle] [] false.

(* ================================================================== *)
(** ** Controller runs *)

Example sample_update_trace :
  fst (run (updateCourse (Sample.env_with true true) Sample.req_with_file)) =
  [EFindById "c1"; EUpload "buf"; EDestroy "old1";
   EUpdate "c1" [("image", JStr Sample.new_url); ("title", JStr "X")]].
Proof. reflexivity. Qed.

Example sample_delete_trace :
  run (deleteCourse (Sample.env_with true true) Sample.req_without_file) =
  ([EFindById "c1"; EDestroy "old1"; EDeleteById "c1"], Ok resp200).
Proof. reflexivity. Qed.

(* ================================================================== *)
(** ** Controller lemmas *)

Lemma delete_course_image_trace (env : Env) (c : Course) (tr : list Event) :
  delete_course_image env c tr = (tr ++ old_image_deletes c, Ok tt).
Proof.
  unfold delete_course_image, old_image_deletes.
  destruct (truthy (course_image c)).
  - cbv [try_catch bind lift ret deleteImage call throw].
    destruct (extractPublicId (course_image c)) as [p|e].
    + destruct (destroy env p); reflexivity.
    + rewrite app_nil_r; reflexivity.
  - rewrite app_nil_r; reflexivity.
Qed.

Lemma destroys_app (t1 t2 : list Event) :
  destroys (t1 ++ t2) = destroys t1 ++ destroys t2.
Proof.
  induction t1 as [|e t1 IH]; [reflexivity|].
  destruct e; simpl; rewrite ?IH; reflexivity.
Qed.

Lemma destroys_old_image_deletes (c : Course) :
  destroys (old_image_deletes c) =
  match old_image_deletes c with
  | [EDestroy p] => [p]
  | _ => []
  end.
Proof.
  unfold old_image_deletes.
  destruct (truthy (course_image c)); [|reflexivity].
  destruct (extractPublicId (course_image c)); reflexivity.
Qed.

Ltac run_handler :=
  cbv [run updateCourse createCourse deleteCourse try_catch bind call ret throw lift];
  repeat match goal with
         | H : _ = _ |- _ => rewrite H
         end;
  simpl.

(** The trace of [updateCourse] on an existing course with a new file whose
    upload returns a usable [secure_url]. *)
Lemma updateCourse_upload_ok_run (env : Env) (req : Request) (c : Course)
      (f : File) (r : JSVal) :
  validation_ok req = true ->
  findById env (params_id req) = Ok (Some c) ->
  file req = Some f ->
  uploadToCloudinary env (buffer f) = Ok r ->
  usable_url r = true ->
  let data := obj_set (initial_update_data env (body req)) "image"
                      (get_field r "secure_url") in
  run (updateCourse env req) =
  ([EFindById (params_id req); EUpload (buffer f)] ++ old_image_deletes c
     ++ [EUpdate (params_id req) data],
   Ok (update_response (findByIdAndUpdate env (params_id req) data))).
Proof.
  intros Hv Hf Hfile Hu Hr data.
  cbv [run updateCourse try_catch bind call ret throw lift].
  rewrite Hv, Hf, Hfile; simpl.
  rewrite Hu, Hr.
  rewrite delete_course_image_trace.
  fold data.
  unfold update_response.
  destruct (findByIdAndUpdate env (params_id req) data) as [[u|]|e];
    simpl; rewrite <- ?app_assoc; reflexivity.
Qed.

Lemma error_response_rejects (e : Exn) : success (error_response e) = false.
Proof.
  unfold error_response.
  destruct (String.eqb (exn_name e) "ValidationError"); [reflexivity|].
  destruct (String.eqb (exn_name e) "CastError"); reflexivity.
Qed.

Lemma obj_has_obj_del (o : Obj) (k k' : string) :
  obj_has (obj_del o k) k' = negb (String.eqb k' k) && obj_has o k'.
Proof.
  induction o as [|[k0 v0] o IH]; simpl.
  - destruct (String.eqb k' k); reflexivity.
  - destruct (String.eqb k k0) eqn:E; simpl.
    + apply String.eqb_eq in E; subst k0.
      rewrite IH. destruct (String.eqb k' k); reflexivity.
    + rewrite IH.
      destruct (String.eqb k' k0) eqn:E'; simpl.
      * apply String.eqb_eq in E'; subst k0.
        rewrite String.eqb_sym, E; reflexivity.
      * reflexivity.
Qed.

Lemma obj_has_obj_set (o : Obj) (k k' : string) (v : JSVal) :
  obj_has (obj_set o k v) k' = String.eqb k' k || obj_has o k'.
Proof.
  unfold obj_set; simpl. rewrite obj_has_obj_del.
  destruct (String.eqb k' k); reflexivity.
Qed.

Lemma obj_get_obj_del (o : Obj) (k k' : string) :
  k' <> k -> obj_get (obj_del o k) k' = obj_get o k'.
Proof.
  intros Hne.
  induction o as [|[k0 v0] o IH]; simpl; [reflexivity|].
  destruct (String.eqb k k0) eqn:E; simpl.
  - apply String.eqb_eq in E; subst k0.
    apply String.eqb_neq in Hne. rewrite Hne. exact IH.
  - rewrite IH. reflexivity.
Qed.

Lemma obj_get_obj_set (o : Obj) (k k' : string) (v : JSVal) :
  obj_get (obj_set o k v) k' = if String.eqb k' k then v else obj_get o k'.
Proof.
  unfold obj_set; simpl.
  destruct (String.eqb k' k) eqn:E; [reflexivity|].
  apply String.eqb_neq in E. apply obj_get_obj_del; exact E.
Qed.

Lemma obj_get_has (o : Obj) (k : string) :
  obj_get o k <> JUndef -> obj_has o k = true.
Proof.
  induction o as [|[k0 v0] o IH]; simpl; [congruence|].
  destruct (String.eqb k k0); [reflexivity|]. simpl. exact IH.
Qed.

Lemma obj_has_parse_field (env : Env) (o : Obj) (k k' : string) (fb : JSVal) :
  obj_has (parse_field env o k fb) k' = obj_has o k'.
Proof.
  unfold parse_field.
  destruct (obj_get o k) eqn:G; try reflexivity.
  assert (Hk : obj_has o k = true) by (apply obj_get_has; congruence).
  destruct (truthy (JStr s)); [|reflexivity].
  destruct (json_parse env s);
    rewrite obj_has_obj_set;
    destruct (String.eqb k' k) eqn:E; try reflexivity;
    apply String.eqb_eq in E; subst k'; rewrite Hk; reflexivity.
Qed.


Lemma initial_update_data_has_other (env : Env) (b : Obj) (k : string) :
  k <> "image" -> obj_has (initial_update_data env b) k = obj_has b k.
Proof.
  intros Hk. unfold initial_update_data, parse_form_fields.
  rewrite !obj_has_parse_field.
  destruct (truthy (obj_get b "image") && is_empty_object (obj_get b "image"));
    [|reflexivity].
  rewrite obj_has_obj_del. apply String.eqb_neq in Hk. rewrite Hk. reflexivity.
Qed.

(* ================================================================== *)
(** ** Claims on the course controller *)

(** C1 (counterexample). On a course whose image is [old1.jpg], an update
    with a new file deletes [old1] before [findByIdAndUpdate] is called,
    both when the update then succeeds and when it fails. *)
Lemma C1_old_image_deleted_before_update :
  (exists data,
     run (updateCourse (Sample.env_with true true) Sample.req_with_file) =
     ([EFindById "c1"; EUpload "buf"; EDestroy "old1"; EUpdate "c1" data],
      Ok resp200)) /\
  (exists data,
     run (updateCourse (Sample.env_with true false) Sample.req_with_file) =
     ([EFindById "c1"; EUpload "buf"; EDestroy "old1"; EUpdate "c1" data],
      Ok resp400)).
Proof. split; eexists; reflexivity. Qed.

(** C1 (amended). For [updateCourse] on an existing course with a new file
    whose upload returns a usable [secure_url], the delete of the old image
    (issued when [course.image] is set) comes after the upload and before
    [findByIdAndUpdate], which is the last call, whatever its outcome. *)
Theorem C1_updateCourse_delete_between_upload_and_update
        (env : Env) (req : Request) (c : Course) (f : File) (r : JSVal) :
  validation_ok req = true ->
  findById env (params_id req) = Ok (Some c) ->
  file req = Some f ->
  uploadToCloudinary env (buffer f) = Ok r ->
  usable_url r = true ->
  fst (run (updateCourse env req)) =
  [EFindById (params_id req); EUpload (buffer f)] ++ old_image_deletes c ++
  [EUpdate (params_id req)
     (obj_set (initial_update_data env (body req)) "image"
              (get_field r "secure_url"))].
Proof.
  intros Hv Hf Hfile Hu Hr.
  rewrite (updateCourse_upload_ok_run env req c f r Hv Hf Hfile Hu Hr).
  reflexivity.
Qed.

Lemma C1_witness :
  fst (run (updateCourse (Sample.env_with true true) Sample.req_with_file)) =
  [EFindById "c1"; EUpload "buf"] ++ [EDestroy "old1"] ++
  [EUpdate "c1" (obj_set (initial_update_data (Sample.env_with true true)
                           [("title", JStr "X")]) "image"
                         (JStr Sample.new_url))].
Proof.
  apply (C1_updateCourse_delete_between_upload_and_update
           (Sample.env_with true true) Sample.req_with_file Sample.course1
           Sample.png (JObj [("secure_url", JStr Sample.new_url)]));
    reflexivity.
Defined.

(** C2 (counterexample). [deleteCourse] on a course with an image deletes
    the image before the record. *)
Lemma C2_image_deleted_before_record :
  run (deleteCourse (Sample.env_with true true) Sample.req_without_file) =
  ([EFindById "c1"; EDestroy "old1"; EDeleteById "c1"], Ok resp200).
Proof. reflexivity. Qed.

(** C2 (amended). For [deleteCourse] on an existing course, the delete of
    its image (issued when [course.image] is set, its failure absorbed)
    comes first and the record delete second; the operation succeeds (200)
    exactly when the record delete does not fail, and is a 500 otherwise. *)
Theorem C2_deleteCourse_image_then_record (env : Env) (req : Request) (c : Course) :
  findById env (params_id req) = Ok (Some c) ->
  run (deleteCourse env req) =
  ([EFindById (params_id req)] ++ old_image_deletes c ++ [EDeleteById (params_id req)],
   Ok (match findByIdAndDelete env (params_id req) with
       | Ok _ => resp200
       | Err _ => resp500
       end)).
Proof.
  intros Hf.
  cbv [run deleteCourse try_catch bind call ret throw lift].
  rewrite Hf; simpl.
  rewrite delete_course_image_trace.
  destruct (findByIdAndDelete env (params_id req)); reflexivity.
Qed.

Lemma C2_witness :
  run (deleteCourse (Sample.env_with true true) Sample.req_without_file) =
  ([EFindById "c1"] ++ [EDestroy "old1"] ++ [EDeleteById "c1"], Ok resp200).
Proof.
  apply (C2_deleteCourse_image_then_record (Sample.env_with true true)
           Sample.req_without_file Sample.course1).
  reflexivity.
Defined.

(** C3 (counterexample). When the upload succeeds and [Course.create]
    fails, [createCourse] issues no delete at all; when
    [findByIdAndUpdate] fails after a successful upload, [updateCourse]
    deletes only the old image ([old1]), never the new one ([new2]). *)
Lemma C3_no_compensating_delete :
  (exists data,
     run (createCourse (Sample.env_with false true) Sample.req_with_file) =
     ([EUpload "buf"; ECreate data], Ok resp400)) /\
  destroys (fst (run (createCourse (Sample.env_with false true)
                                   Sample.req_with_file))) = [] /\
  destroys (fst (run (updateCourse (Sample.env_with true false)
                                   Sample.req_with_file))) = ["old1"] /\
  snd (run (updateCourse (Sample.env_with true false) Sample.req_with_file))
  = Ok resp400.
Proof. repeat split; try reflexivity. eexists; reflexivity. Qed.

(** C3 (amended). After a successful upload, a failed persist ends the
    operation rejected with no compensating delete: [createCourse] issues
    no delete at all and its last call is [Course.create]; [updateCourse]
    issues no delete other than the one for the old image (made before
    the persist) and its last call is [findByIdAndUpdate]. *)
Theorem C3_failed_persist_no_delete_of_new_upload
        (env : Env) (req : Request) (f : File) (r : JSVal) :
  validation_ok req = true ->
  file req = Some f ->
  uploadToCloudinary env (buffer f) = Ok r ->
  usable_url r = true ->
  (forall e,
     let data := obj_set (parse_form_fields env (body req)) "image"
                         (get_field r "secure_url") in
     create env data = Err e ->
     run (createCourse env req) =
     ([EUpload (buffer f); ECreate data], Ok (error_response e)) /\
     destroys (fst (run (createCourse env req))) = [] /\
     success (error_response e) = false) /\
  (forall c,
     let data := obj_set (initial_update_data env (body req)) "image"
                         (get_field r "secure_url") in
     findById env (params_id req) = Ok (Some c) ->
     (forall u, findByIdAndUpdate env (params_id req) data <> Ok (Some u)) ->
     destroys (fst (run (updateCourse env req))) = destroys (old_image_deletes c) /\
     (exists pre, fst (run (updateCourse env req)) =
                  pre ++ [EUpdate (params_id req) data]) /\
     exists resp, snd (run (updateCourse env req)) = Ok resp /\
                  success resp = false).
Proof.
  intros Hv Hfile Hu Hr. split.
  - intros e data He.
    assert (Hrun : run (createCourse env req) =
                   ([EUpload (buffer f); ECreate data], Ok (error_response e))).
    { cbv [run createCourse try_catch bind call ret throw lift].
      rewrite Hv, Hfile; simpl. rewrite Hu, Hr. fold data. rewrite He.
      reflexivity. }
    rewrite Hrun. split; [reflexivity|]. split; [reflexivity|].
    apply error_response_rejects.
  - intros c data Hf Hup.
    rewrite (updateCourse_upload_ok_run env req c f r Hv Hf Hfile Hu Hr).
    fold data. simpl. split.
    + rewrite destroys_app. simpl. rewrite app_nil_r. reflexivity.
    + split.
      { exists ([EFindById (params_id req); EUpload (buffer f)] ++ old_image_deletes c).
        rewrite <- app_assoc; reflexivity. }
      exists (update_response (findByIdAndUpdate env (params_id req) data)).
      split; [reflexivity|].
      unfold update_response.
      destruct (findByIdAndUpdate env (params_id req) data) as [[u|]|e] eqn:E.
      * exfalso. exact (Hup u eq_refl).
      * apply error_response_rejects.
      * apply error_response_rejects.
Qed.

Lemma C3_witness :
  run (createCourse (Sample.env_with false true) Sample.req_with_file) =
  ([EUpload "buf";
    ECreate (obj_set (parse_form_fields (Sample.env_with false true)
                        [("title", JStr "X")]) "image" (JStr Sample.new_url))],
   Ok (error_response (mkExn "ValidationError" "Course validation failed"))).
Proof.
  refine (proj1 (proj1 (C3_failed_persist_no_delete_of_new_upload
                          (Sample.env_with false true) Sample.req_with_file
                          Sample.png (JObj [("secure_url", JStr Sample.new_url)])
                          eq_refl eq_refl eq_refl eq_refl)
                       (mkExn "ValidationError" "Course validation failed")
                       eq_refl)).
Defined.

(** C4. For [updateCourse] on an existing course with a new file whose
    upload rejects, or resolves without a usable [secure_url], the answer
    is a 400 and the only calls are the lookup and the upload: no
    [findByIdAndUpdate] and no delete of the old image. *)
Theorem C4_upload_failure_leaves_course_untouched
        (env : Env) (req : Request) (c : Course) (f : File) :
  validation_ok req = true ->
  findById env (params_id req) = Ok (Some c) ->
  file req = Some f ->
  (forall r, uploadToCloudinary env (buffer f) = Ok r -> usable_url r = false) ->
  run (updateCourse env req) =
  ([EFindById (params_id req); EUpload (buffer f)], Ok resp400).
Proof.
  intros Hv Hf Hfile Hbad.
  cbv [run updateCourse try_catch bind call ret throw lift].
  rewrite Hv, Hf, Hfile; simpl.
  destruct (uploadToCloudinary env (buffer f)) as [r|e] eqn:E.
  - rewrite (Hbad r eq_refl). reflexivity.
  - reflexivity.
Qed.

Lemma C4_witness :
  run (updateCourse Sample.env_no_url Sample.req_with_file) =
  ([EFindById "c1"; EUpload "buf"], Ok resp400).
Proof.
  refine (C4_upload_failure_leaves_course_untouched Sample.env_no_url
            Sample.req_with_file Sample.course1 Sample.png
            eq_refl eq_refl eq_refl _).
  intros r Hr. simpl in Hr. injection Hr as <-. reflexivity.
Defined.




(* ================================================================== *)
(** ** [extractPublicId] *)

Lemma js_split_nonempty (sep : ascii) (s : string) : js_split sep s <> [].
Proof.
  destruct s as [|c s]; simpl; [discriminate|].
  destruct (Ascii.eqb c sep); [discriminate|].
  destruct (js_split sep s); discriminate.
Qed.

Lemma js_split_no_sep (sep : ascii) (s : string) :
  has_char sep s = false -> js_split sep s = [s].
Proof.
  induction s as [|c s IH]; simpl; [reflexivity|].
  intros H. apply orb_false_elim in H as [Hc Hs].
  rewrite Hc, (IH Hs). reflexivity.
Qed.

(** Splitting around one separator concatenates the two splits. *)
Lemma js_split_app_sep (sep : ascii) (a b : string) :
  js_split sep (a ++ String sep b)%string = js_split sep a ++ js_split sep b.
Proof.
  induction a as [|c a IH]; simpl.
  - rewrite Ascii.eqb_refl. reflexivity.
  - rewrite IH.
    destruct (Ascii.eqb c sep); [reflexivity|].
    destruct (js_split sep a) as [|p ps] eqn:E.
    + exfalso. exact (js_split_nonempty sep a E).
    + reflexivity.
Qed.

Lemma js_index_last (xs : list string) (x : string) :
  js_index (xs ++ [x]) (length (xs ++ [x]) - 1) = Some x.
Proof.
  unfold js_index. rewrite length_app. simpl.
  replace (length xs + 1 - 1) with (length xs) by lia.
  rewrite nth_error_app2 by lia. rewrite Nat.sub_diag. reflexivity.
Qed.

(** [extractPublicId] on a string: the part of the last ['/'] piece before
    its first ['.']. *)
Lemma extractPublicId_string (s : string) :
  extractPublicId (JStr s) =
  Ok (hd EmptyString (js_split dot (last (js_split slash s) EmptyString))).
Proof.
  unfold extractPublicId.
  destruct (js_split slash s) as [|p ps] eqn:E using rev_ind.
  - exfalso. exact (js_split_nonempty slash s E).
  - rewrite js_index_last, last_last.
    destruct (js_split dot p) as [|q qs] eqn:F.
    + exfalso. exact (js_split_nonempty dot p F).
    + reflexivity.
Qed.

Example extractPublicId_sample :
  extractPublicId (JStr Sample.old_url) = Ok "old1".
Proof. reflexivity. Qed.

(** C5 (counterexample). A reference with no extension separator in its
    last segment, and the empty reference (no path segment), are not
    rejected: [extractPublicId] returns a string for both. *)
Lemma C5_no_separator_not_rejected :
  extractPublicId
    (JStr "https://res.cloudinary.com/demo/image/upload/masters-academy/abc123")
  = Ok "abc123" /\
  extractPublicId (JStr "") = Ok "".
Proof. split; reflexivity. Qed.

Lemma string_app_empty (s : string) : (s ++ "")%string = s.
Proof. induction s as [|c s IH]; simpl; [reflexivity|]. rewrite IH. reflexivity. Qed.

(** The part of a segment before its first ['.']. *)
Lemma hd_split_dot (name rest : string) :
  has_char dot name = false ->
  (rest = EmptyString \/ exists r, rest = String dot r) ->
  hd EmptyString (js_split dot (name ++ rest)) = name.
Proof.
  intros Hn [->|[r ->]].
  - rewrite string_app_empty, (js_split_no_sep dot name Hn). reflexivity.
  - rewrite js_split_app_sep, (js_split_no_sep dot name Hn). reflexivity.
Qed.

(** Every string is one segment with no ['/'], or ends in ['/'] followed by
    such a segment. *)
Lemma last_segment_decomp (s : string) :
  has_char slash s = false \/
  exists prefix seg, s = (prefix ++ String slash seg)%string /\
                     has_char slash seg = false.
Proof.
  induction s as [|c s IH]; [left; reflexivity|].
  destruct IH as [H|[prefix [seg [-> Hs]]]].
  - destruct (Ascii.eqb c slash) eqn:E.
    + right. apply Ascii.eqb_eq in E. subst c.
      exists EmptyString, s. split; [reflexivity|exact H].
    + left. simpl. rewrite E. exact H.
  - right. exists (String c prefix), seg. split; [reflexivity|exact Hs].
Qed.

(** Every segment is a name with no ['.'], then nothing or a ['.'] and the
    rest. *)
Lemma name_decomp (seg : string) :
  exists name rest, seg = (name ++ rest)%string /\ has_char dot name = false /\
    (rest = EmptyString \/ exists r, rest = String dot r).
Proof.
  induction seg as [|c seg IH].
  - exists EmptyString, EmptyString. split; [reflexivity|]. split; [reflexivity|].
    left. reflexivity.
  - destruct (Ascii.eqb c dot) eqn:E.
    + apply Ascii.eqb_eq in E. subst c.
      exists EmptyString, (String dot seg). split; [reflexivity|].
      split; [reflexivity|]. right. exists seg. reflexivity.
    + destruct IH as [name [rest [-> [Hn Hr]]]].
      exists (String c name), rest. split; [reflexivity|].
      split; [simpl; rewrite E; exact Hn|exact Hr].
Qed.

(** C5 (amended). For a reference [<base>/<name>.<ext>] with no ['/'] in
    [name] or [ext] and no ['.'] in [name], [extractPublicId] returns
    [name]. On every string it returns a string and never fails: the part
    of the last ['/']-separated segment before its first ['.'] (a string
    is either one segment, or ends in ['/'] and its last segment; a
    segment is a name with no ['.'] followed by nothing or by ['.'] and
    the rest). So a last segment with no ['.'] is returned whole and the
    empty reference gives the empty string. Only an argument that is not
    a string fails, with ['Invalid Cloudinary URL format']. *)
Theorem C5_extractPublicId_shape (base name ext : string) :
  has_char slash name = false ->
  has_char dot name = false ->
  has_char slash ext = false ->
  extractPublicId (JStr (base ++ String slash (name ++ String dot ext)))%string
  = Ok name /\
  (forall seg, has_char slash seg = false -> has_char dot seg = false ->
     extractPublicId (JStr seg) = Ok seg /\
     extractPublicId (JStr (base ++ String slash seg))%string = Ok seg) /\
  (forall prefix seg nm rest,
     has_char slash seg = false -> seg = (nm ++ rest)%string ->
     has_char dot nm = false ->
     (rest = EmptyString \/ exists r, rest = String dot r) ->
     extractPublicId (JStr seg) = Ok nm /\
     extractPublicId (JStr (prefix ++ String slash seg))%string = Ok nm) /\
  (forall s, exists prefix nm rest,
     (s = (nm ++ rest)%string \/ s = (prefix ++ String slash (nm ++ rest))%string) /\
     has_char slash (nm ++ rest) = false /\ has_char dot nm = false /\
     (rest = EmptyString \/ exists r, rest = String dot r) /\
     extractPublicId (JStr s) = Ok nm) /\
  extractPublicId (JStr "") = Ok "" /\
  (forall v, is_string v = false -> extractPublicId v = Err invalid_url).
Proof.
  intros Hn1 Hn2 He.
  assert (Hseg : forall prefix seg nm rest,
     has_char slash seg = false -> seg = (nm ++ rest)%string ->
     has_char dot nm = false ->
     (rest = EmptyString \/ exists r, rest = String dot r) ->
     extractPublicId (JStr seg) = Ok nm /\
     extractPublicId (JStr (prefix ++ String slash seg))%string = Ok nm).
  { intros prefix seg nm rest Hs Eq Hd Hr. split.
    - rewrite extractPublicId_string, (js_split_no_sep slash seg Hs). simpl.
      rewrite Eq. rewrite (hd_split_dot nm rest Hd Hr). reflexivity.
    - rewrite extractPublicId_string, js_split_app_sep,
              (js_split_no_sep slash seg Hs), last_last.
      rewrite Eq. rewrite (hd_split_dot nm rest Hd Hr). reflexivity. }
  split; [|split; [|split; [|split; [|split]]]].
  - rewrite extractPublicId_string.
    rewrite js_split_app_sep.
    rewrite (js_split_no_sep slash (name ++ String dot ext)).
    + rewrite last_last.
      rewrite js_split_app_sep, (js_split_no_sep dot name Hn2). reflexivity.
    + induction name as [|c n IH]; simpl in *.
      * rewrite He. reflexivity.
      * apply orb_false_elim in Hn1 as [H1 H1'].
        apply orb_false_elim in Hn2 as [_ H2'].
        rewrite H1, (IH H1' H2'). reflexivity.
  - intros seg Hs Hd.
    apply (Hseg base seg seg EmptyString Hs); [|exact Hd|left; reflexivity].
    symmetry. apply string_app_empty.
  - exact Hseg.
  - intros s.
    destruct (last_segment_decomp s) as [Hs|[prefix [seg [-> Hs]]]].
    + destruct (name_decomp s) as [nm [rest [Eq [Hd Hr]]]].
      exists EmptyString, nm, rest.
      split; [left; exact Eq|]. rewrite <- Eq.
      split; [exact Hs|]. split; [exact Hd|]. split; [exact Hr|].
      exact (proj1 (Hseg EmptyString s nm rest Hs Eq Hd Hr)).
    + destruct (name_decomp seg) as [nm [rest [Eq [Hd Hr]]]].
      exists prefix, nm, rest.
      split; [right; rewrite <- Eq; reflexivity|]. rewrite <- Eq.
      split; [exact Hs|]. split; [exact Hd|]. split; [exact Hr|].
      exact (proj2 (Hseg prefix seg nm rest Hs Eq Hd Hr)).
  - reflexivity.
  - intros v Hv. destruct v; try reflexivity. discriminate.
Qed.

Lemma C5_witness :
  extractPublicId
    (JStr ("https://res.cloudinary.com/demo/image/upload/v1/masters-academy"
           ++ String slash ("abc123" ++ String dot "jpg")))%string
  = Ok "abc123".
Proof.
  exact (proj1 (C5_extractPublicId_shape
                  "https://res.cloudinary.com/demo/image/upload/v1/masters-academy"
                  "abc123" "jpg" eq_refl eq_refl eq_refl)).
Defined.


(* ================================================================== *)
(** ** Connection cache lemmas *)

Lemma nth_error_set_nth {A} (xs : list A) (i j : nat) (x : A) :
  nth_error (set_nth xs i x) j =
  if Nat.eqb i j then match nth_error xs j with Some _ => Some x | None => None end
  else nth_error xs j.
Proof.
  revert i j. induction xs as [|y xs IH]; intros i j.
  - simpl. destruct j, (Nat.eqb i _); reflexivity.
  - destruct i as [|i], j as [|j]; simpl; try reflexivity. apply IH.
Qed.

Lemma length_set_nth {A} (xs : list A) (i : nat) (x : A) :
  length (set_nth xs i x) = length xs.
Proof.
  revert i. induction xs as [|y xs IH]; intros [|i]; simpl; auto.
Qed.

Lemma nth_error_set_nth_same {A} (xs : list A) (i : nat) (x : A) :
  i < length xs -> nth_error (set_nth xs i x) i = Some x.
Proof.
  intros H. rewrite nth_error_set_nth, Nat.eqb_refl.
  destruct (nth_error xs i) eqn:E; [reflexivity|].
  apply nth_error_None in E. lia.
Qed.

Lemma nth_error_set_nth_other {A} (xs : list A) (i j : nat) (x : A) :
  i <> j -> nth_error (set_nth xs i x) j = nth_error xs j.
Proof.
  intros H. rewrite nth_error_set_nth.
  apply Nat.eqb_neq in H. rewrite H. reflexivity.
Qed.

Lemma in_waiters_from (cs : list CallerSt) (k start i : nat) :
  nth_error cs i = Some (Waiting k) -> In (start + i) (waiters_from k start cs).
Proof.
  revert start i. induction cs as [|c cs IH]; intros start i H.
  - destruct i; discriminate.
  - destruct i as [|i]; simpl in H.
    + injection H as ->. simpl. rewrite Nat.eqb_refl, Nat.add_0_r. left; reflexivity.
    + replace (start + S i) with (S start + i) by lia.
      specialize (IH (S start) i H).
      destruct c as [| k' |]; simpl; auto.
      destruct (Nat.eqb k k'); simpl; auto.
Qed.

Lemma in_waiters (st : Cache) (k i : nat) :
  nth_error (callers st) i = Some (Waiting k) -> In i (waiters k st).
Proof. intros H. exact (in_waiters_from (callers st) k 0 i H). Qed.

(** Draining failed resumptions of the module-level [connectDB]: each runs
    [process.exit(1)]; no invocation returns and [conn] is untouched. *)
Lemma module_drain_failed (e : nat) (ws : list nat) (st : Cache) :
  microtasks st = map (fun w => (w, Failed e)) ws ->
  let m := ModuleConn.drain (length ws) st in
  callers m = callers st /\ conn m = conn st /\ microtasks m = [] /\
  exited m = (exited st || negb (Nat.eqb (length ws) 0)).
Proof.
  revert st. induction ws as [|w ws IH]; intros st Hq; simpl.
  - rewrite Hq, orb_false_r. auto.
  - assert (Hr : ModuleConn.resume st =
                 set_exited true (set_microtasks (map (fun w => (w, Failed e)) ws) st)).
    { unfold ModuleConn.resume. rewrite Hq. reflexivity. }
    rewrite Hr.
    destruct (IH (set_exited true (set_microtasks (map (fun w => (w, Failed e)) ws) st))
                 eq_refl) as (H1 & H2 & H3 & H4).
    simpl in H1, H2, H4. rewrite H1, H2, H4, orb_true_r. auto.
Qed.

Lemma module_settle_failed (st : Cache) (k e i : nat) :
  microtasks st = [] ->
  nth_error (callers st) i = Some (Waiting k) ->
  let m := ModuleConn.flush (ModuleConn.settle k (Failed e) st) in
  exited m = true /\ callers m = callers st /\ conn m = conn st /\
  microtasks m = [].
Proof.
  intros Hq Hi m.
  pose proof (in_waiters st k i Hi) as Hw.
  unfold m, ModuleConn.flush, ModuleConn.settle, settle_attempt. simpl.
  rewrite Hq. simpl. rewrite length_map.
  destruct (module_drain_failed e (waiters k st)
              (set_microtasks (map (fun i => (i, Failed e)) (waiters k st))
                 (set_attempts (set_nth (attempts st) k (Settled (Failed e))) st))
              eq_refl) as (H1 & H2 & H3 & H4).
  simpl in H1, H2, H4.
  destruct (waiters k st) as [|w ws]; [contradiction|].
  simpl in *. rewrite H4, orb_true_r. auto.
Qed.

Lemma mk_inv (st : Cache) :
  (forall k, nth_error (attempts st) k = Some Pending ->
             promise st = Some k /\ conn st = None) ->
  (microtasks st <> [] -> forall k, nth_error (attempts st) k <> Some Pending) ->
  (forall k, promise st = Some k -> k < length (attempts st)) ->
  exited st = false ->
  CachedPromise.Inv st.
Proof. intros; unfold CachedPromise.Inv; auto. Qed.

Lemma inv_cold (n : nat) : CachedPromise.Inv (cold n).
Proof.
  apply mk_inv; simpl.
  - intros k H. destruct k; discriminate.
  - intros H. congruence.
  - intros k H. discriminate.
  - reflexivity.
Qed.

Lemma inv_call (i : nat) (st : Cache) :
  CachedPromise.Inv st -> microtasks st = [] ->
  CachedPromise.Inv (CachedPromise.connectDB_call i st).
Proof.
  intros (H1 & H2 & H3 & H4) Hq.
  unfold CachedPromise.connectDB_call.
  destruct (conn st) as [h|] eqn:Ec.
  - apply mk_inv; simpl; rewrite ?Ec; auto.
  - destruct (promise st) as [k|] eqn:Ep.
    + unfold await_attempt.
      destruct (nth_error (attempts st) k) as [[|o]|] eqn:En;
        try (apply mk_inv; simpl; rewrite ?Ep, ?Ec; auto; fail).
      apply mk_inv; simpl; rewrite ?Ep, ?Ec; auto.
      intros _ k' Hk'. destruct (H1 k' Hk') as [Hp _].
      injection Hp as <-. congruence.
    + unfold await_attempt, start_attempt; simpl.
      rewrite nth_error_app2 by lia. rewrite Nat.sub_diag. simpl.
      apply mk_inv; simpl; rewrite ?Ec; auto.
      * intros k' Hk'.
        destruct (Nat.lt_ge_cases k' (length (attempts st))) as [Hlt|Hge].
        -- rewrite nth_error_app1 in Hk' by exact Hlt.
           destruct (H1 k' Hk') as [Hp _]. congruence.
        -- rewrite nth_error_app2 in Hk' by exact Hge.
           destruct (k' - length (attempts st)) eqn:Ed; simpl in Hk'.
           ++ split; [|reflexivity].
              replace k' with (length (attempts st)) by lia. reflexivity.
           ++ destruct n; discriminate.
      * intros k' Hk'. injection Hk' as <-. rewrite length_app. simpl. lia.
Qed.

Lemma inv_settle (k : nat) (o : Outcome) (st : Cache) :
  CachedPromise.Inv st -> nth_error (attempts st) k = Some Pending ->
  CachedPromise.Inv (CachedPromise.settle k o st).
Proof.
  intros (H1 & H2 & H3 & H4) Hk.
  assert (Hnone : forall k', nth_error (set_nth (attempts st) k (Settled o)) k'
                             <> Some Pending).
  { intros k' Hk'. rewrite nth_error_set_nth in Hk'.
    destruct (Nat.eqb k k') eqn:E.
    - destruct (nth_error (attempts st) k'); discriminate.
    - apply Nat.eqb_neq in E.
      destruct (H1 k' Hk') as [Hp _]. destruct (H1 k Hk) as [Hp' _].
      congruence. }
  unfold CachedPromise.settle, settle_attempt.
  destruct o as [h|e]; apply mk_inv; simpl;
    try (intros k' Hk'; exfalso; exact (Hnone k' Hk'));
    try (intros _; exact Hnone);
    auto; try discriminate.
  intros k' Hk'. rewrite length_set_nth. auto.
Qed.

Lemma inv_resume (st : Cache) :
  CachedPromise.Inv st -> microtasks st <> [] ->
  CachedPromise.Inv (CachedPromise.resume st).
Proof.
  intros (H1 & H2 & H3 & H4) Hq.
  specialize (H2 Hq).
  unfold CachedPromise.resume.
  destruct (microtasks st) as [|[i o] q]; [congruence|].
  destruct o as [h|e]; apply mk_inv; simpl;
    try (intros k' Hk'; exfalso; exact (H2 k' Hk'));
    try (intros _; exact H2);
    auto; discriminate.
Qed.

Lemma reachable_inv (st : Cache) :
  CachedPromise.reachable st -> CachedPromise.Inv st.
Proof.
  induction 1 as [n | st st' _ IH Hstep].
  - apply inv_cold.
  - destruct Hstep as [i st Hq Hi | k o st Hq Hk | st Hq].
    + apply inv_call; assumption.
    + apply inv_settle; assumption.
    + apply inv_resume; assumption.
Qed.

(** Draining a queue whose entries all carry the outcome [o]. *)
Lemma drain_same_outcome (o : Outcome) (q : list (nat * Outcome)) (st : Cache) :
  microtasks st = q ->
  (forall x, In x q -> snd x = o) ->
  let st' := CachedPromise.drain (length q) st in
  microtasks st' = [] /\
  attempts st' = attempts st /\
  exited st' = exited st /\
  (forall i, In i (map fst q) -> i < length (callers st) ->
             nth_error (callers st') i = Some (Returned o)) /\
  (forall e, o = Failed e ->
             conn st' = conn st /\ (promise st = None -> promise st' = None)).
Proof.
  revert st. induction q as [|[i o'] q IH]; intros st Hq Ho st'.
  - subst st'. simpl. repeat split; auto.
    intros i [].
  - assert (Ho' : o' = o) by exact (Ho (i, o') (or_introl eq_refl)).
    subst o'.
    assert (Hrest : forall x, In x q -> snd x = o)
      by (intros x Hx; apply Ho; right; exact Hx).
    set (st1 := CachedPromise.resume st).
    assert (Hq1 : microtasks st1 = q).
    { unfold st1, CachedPromise.resume. rewrite Hq. destruct o; reflexivity. }
    destruct (IH st1 Hq1 Hrest) as (D1 & D2 & D3 & D4 & D5).
    change st' with (CachedPromise.drain (length q) st1).
    set (st'' := CachedPromise.drain (length q) st1) in *.
    assert (Hc1 : callers st1 = set_nth (callers st) i (Returned o)).
    { unfold st1, CachedPromise.resume. rewrite Hq. destruct o; reflexivity. }
    assert (Ha1 : attempts st1 = attempts st /\ exited st1 = exited st).
    { unfold st1, CachedPromise.resume. rewrite Hq. destruct o; split; reflexivity. }
    destruct Ha1 as [Ha1 He1].
    split; [exact D1|]. split; [congruence|]. split; [congruence|]. split.
    + intros j Hj Hlt.
      destruct (in_dec Nat.eq_dec j (map fst q)) as [Hin|Hout].
      * apply D4; [exact Hin|]. rewrite Hc1, length_set_nth. exact Hlt.
      * simpl in Hj. destruct Hj as [<-|Hj]; [|contradiction].
        (* the last entry for [i] is this one *)
        clear D4.
        assert (Hkeep : forall (r : list (nat * Outcome)) (s : Cache),
                   microtasks s = r -> ~ In i (map fst r) ->
                   nth_error (callers (CachedPromise.drain (length r) s)) i =
                   nth_error (callers s) i).
        { induction r as [|[j' o''] r IHr]; intros s Hs Hni; [reflexivity|].
          simpl. rewrite IHr.
          - unfold CachedPromise.resume. rewrite Hs.
            destruct o''; simpl; apply nth_error_set_nth_other;
              intros Heq; apply Hni; left; exact Heq.
          - unfold CachedPromise.resume. rewrite Hs. destruct o''; reflexivity.
          - intros Hr. apply Hni. right. exact Hr. }
        unfold st''. rewrite (Hkeep q st1 Hq1 Hout), Hc1.
        apply nth_error_set_nth_same. exact Hlt.
    + intros e He. subst o. destruct (D5 e eq_refl) as [C P].
      unfold st1, CachedPromise.resume in C, P. rewrite Hq in C, P.
      simpl in C, P. split; [exact C|]. intros _. apply P. reflexivity.
Qed.

(** Settling attempt [k] with [o] from an empty queue, then running the
    queue: every invocation suspended on [k] returns [o]. *)
Lemma settle_flush (k : nat) (o : Outcome) (st : Cache) :
  microtasks st = [] ->
  let st1 := CachedPromise.settle k o st in
  let st' := CachedPromise.flush st1 in
  microtasks st' = [] /\
  attempts st' = attempts st1 /\
  exited st' = exited st /\
  (forall i, nth_error (callers st) i = Some (Waiting k) ->
             nth_error (callers st') i = Some (Returned o)) /\
  (forall e, o = Failed e -> conn st' = conn st /\ promise st' = None).
Proof.
  intros Hq st1 st'.
  set (q := map (fun i => (i, o)) (waiters k st)).
  assert (Hq1 : microtasks st1 = q).
  { unfold st1, CachedPromise.settle, settle_attempt, waiters.
    destruct o; simpl; rewrite Hq; reflexivity. }
  assert (Hcl : callers st1 = callers st /\ exited st1 = exited st).
  { unfold st1, CachedPromise.settle, settle_attempt; destruct o; split; reflexivity. }
  destruct Hcl as [Hcl Hex].
  assert (Hall : forall x, In x q -> snd x = o).
  { intros x Hx. unfold q in Hx. apply in_map_iff in Hx as (y & <- & _). reflexivity. }
  destruct (drain_same_outcome o q st1 Hq1 Hall) as (D1 & D2 & D3 & D4 & D5).
  unfold st', CachedPromise.flush. rewrite Hq1.
  split; [exact D1|]. split; [exact D2|]. split; [congruence|]. split.
  - intros i Hi. apply D4.
    + unfold q. rewrite map_map. simpl. rewrite map_id. apply in_waiters. exact Hi.
    + rewrite Hcl. apply nth_error_Some. congruence.
  - intros e He. destruct (D5 e He) as [C P]. subst o. split.
    + rewrite C. reflexivity.
    + apply P. reflexivity.
Qed.

Lemma set_nth_app {A} (l1 l2 : list A) (j : nat) (x : A) :
  set_nth (l1 ++ l2) (length l1 + j) x = l1 ++ set_nth l2 j x.
Proof. induction l1 as [|y l1 IH]; simpl; [reflexivity|]. rewrite IH. reflexivity. Qed.

Lemma set_nth_repeat_app {A} (x y : A) (m : nat) (l : list A) :
  set_nth (repeat x m ++ l) m y = repeat x m ++ set_nth l 0 y.
Proof. induction m as [|m IH]; simpl; [reflexivity|]. rewrite IH. reflexivity. Qed.

Lemma repeat_app_cons {A} (x : A) (m : nat) (l : list A) :
  repeat x m ++ x :: l = x :: repeat x m ++ l.
Proof. induction m as [|m IH]; simpl; [reflexivity|]. rewrite IH. reflexivity. Qed.

(** [n] invocations started on a cold process with the cached-promise
    [connectDB]: one attempt, everybody suspended on it. *)
Lemma call_all_cold (n : nat) :
  1 <= n ->
  CachedPromise.call_all n (cold n) =
  mkCache None (Some 0) [Pending] (repeat (Waiting 0) n) [] false.
Proof.
  intros Hn.
  assert (G : forall m, 1 <= m <= n ->
            fold_left (fun st i => CachedPromise.connectDB_call i st) (seq 0 m) (cold n) =
            mkCache None (Some 0) [Pending]
                    (repeat (Waiting 0) m ++ repeat Idle (n - m)) [] false).
  { induction m as [|m IH]; intros Hm; [lia|].
    rewrite seq_S, fold_left_app. simpl.
    destruct m as [|m].
    - simpl. destruct n as [|n]; [lia|]. simpl.
      unfold CachedPromise.connectDB_call, await_attempt, start_attempt, cold; simpl.
      rewrite Nat.sub_0_r. reflexivity.
    - rewrite IH by lia.
      unfold CachedPromise.connectDB_call, await_attempt, set_caller; simpl.
      rewrite set_nth_repeat_app.
      destruct (n - S m) as [|r] eqn:Er; [lia|].
      simpl. replace (n - S (S m)) with r by lia.
      rewrite repeat_app_cons. reflexivity. }
  unfold CachedPromise.call_all.
  rewrite (G n (conj Hn (le_n n))), Nat.sub_diag, app_nil_r. reflexivity.
Qed.

(** With the module-level [conn], each invocation on a process without a
    connection starts its own attempt. *)
Lemma module_conn_calls (l : list nat) (st : Cache) :
  conn st = None ->
  attempts (fold_left (fun st i => ModuleConn.connectDB_call i st) l st) =
  attempts st ++ repeat Pending (length l).
Proof.
  revert st. induction l as [|i l IH]; intros st Hc; simpl.
  - rewrite app_nil_r. reflexivity.
  - unfold ModuleConn.connectDB_call at 2. rewrite Hc.
    unfold await_attempt, start_attempt at 2. simpl.
    rewrite nth_error_app2, Nat.sub_diag by lia. simpl.
    rewrite IH by (simpl; exact Hc). simpl.
    rewrite <- app_assoc. reflexivity.
Qed.

(* ================================================================== *)
(** ** Claims on [connectDB] *)

(** C6 (counterexample). With the module-level [conn] definition, two
    invocations on a cold process start two connect attempts, both in
    flight at once. *)
Lemma C6_module_conn_two_attempts :
  attempts (ModuleConn.call_all 2 (cold 2)) = [Pending; Pending].
Proof. reflexivity. Qed.

(** C6 (amended). For the cached-promise [connectDB]: [n] concurrent
    invocations on a cold process start exactly one attempt and all
    return its outcome; in general every invocation suspended on an
    attempt returns that attempt's outcome, and in every reachable state
    at most one attempt is in flight. For the module-level [conn]
    definition, [n] concurrent cold invocations start [n] attempts. *)
Theorem C6_one_attempt_with_cached_promise :
  (forall n o, 1 <= n ->
     length (attempts (CachedPromise.call_all n (cold n))) = 1 /\
     forall i, i < n ->
       nth_error (callers (CachedPromise.flush
                             (CachedPromise.settle 0 o (CachedPromise.call_all n (cold n)))))
                 i = Some (Returned o)) /\
  (forall st k o i,
     microtasks st = [] ->
     nth_error (callers st) i = Some (Waiting k) ->
     nth_error (callers (CachedPromise.flush (CachedPromise.settle k o st))) i
     = Some (Returned o)) /\
  (forall st k1 k2,
     CachedPromise.reachable st ->
     nth_error (attempts st) k1 = Some Pending ->
     nth_error (attempts st) k2 = Some Pending -> k1 = k2) /\
  (forall n, attempts (ModuleConn.call_all n (cold n)) = repeat Pending n).
Proof.
  split; [|split; [|split]].
  - intros n o Hn. rewrite (call_all_cold n Hn). split; [reflexivity|].
    intros i Hi.
    destruct (settle_flush 0 o
                (mkCache None (Some 0) [Pending] (repeat (Waiting 0) n) [] false)
                eq_refl) as (_ & _ & _ & D & _).
    apply D. simpl. apply nth_error_repeat. exact Hi.
  - intros st k o i Hq Hi.
    destruct (settle_flush k o st Hq) as (_ & _ & _ & D & _).
    apply D. exact Hi.
  - intros st k1 k2 Hr H1 H2.
    destruct (reachable_inv st Hr) as (I & _).
    destruct (I k1 H1) as [P1 _]. destruct (I k2 H2) as [P2 _].
    congruence.
  - intros n. unfold ModuleConn.call_all.
    rewrite module_conn_calls by reflexivity.
    rewrite length_seq. reflexivity.
Qed.

Lemma C6_witness :
  length (attempts (CachedPromise.call_all 3 (cold 3))) = 1 /\
  (forall i, i < 3 ->
     nth_error (callers (CachedPromise.flush
                           (CachedPromise.settle 0 (Connected 5)
                              (CachedPromise.call_all 3 (cold 3)))))
               i = Some (Returned (Connected 5))).
Proof.
  apply (proj1 C6_one_attempt_with_cached_promise 3 (Connected 5)).
  repeat constructor.
Defined.

(** C7 (counterexample). With the module-level [conn] definition a failed
    connect runs [process.exit(1)]: the invocation never returns. *)
Lemma C7_module_conn_exits :
  let st := ModuleConn.flush (ModuleConn.settle 0 (Failed 1)
                                (ModuleConn.call_all 1 (cold 1))) in
  exited st = true /\ nth_error (callers st) 0 = Some (Waiting 0).
Proof. split; reflexivity. Qed.

(** C7 (amended). For the cached-promise [connectDB], when the attempt in
    flight fails, every invocation suspended on it returns the error, the
    process keeps running, [cached.conn] and [cached.promise] are left
    empty, and the next invocation starts a fresh attempt. With the
    module-level [conn] definition, in any state (cold, with concurrent
    invocations, or after the connection dropped), a failed connect on
    which an invocation is suspended exits the process instead: every
    invocation stays suspended and none receives the error. *)
Theorem C7_failed_attempt_not_cached (st : Cache) (k e : nat) :
  CachedPromise.reachable st ->
  microtasks st = [] ->
  nth_error (attempts st) k = Some Pending ->
  let st' := CachedPromise.flush (CachedPromise.settle k (Failed e) st) in
  ((forall i, nth_error (callers st) i = Some (Waiting k) ->
              nth_error (callers st') i = Some (Returned (Failed e))) /\
   conn st' = None /\ promise st' = None /\ exited st' = false /\
   (forall j, nth_error (callers st') j = Some Idle ->
      let st'' := CachedPromise.connectDB_call j st' in
      attempts st'' = attempts st' ++ [Pending] /\
      promise st'' = Some (length (attempts st')) /\
      nth_error (callers st'') j = Some (Waiting (length (attempts st'))))) /\
  (forall (st0 : Cache) (k0 i : nat),
     microtasks st0 = [] ->
     nth_error (callers st0) i = Some (Waiting k0) ->
     let m := ModuleConn.flush (ModuleConn.settle k0 (Failed e) st0) in
     exited m = true /\ callers m = callers st0 /\
     nth_error (callers m) i = Some (Waiting k0) /\ conn m = conn st0).
Proof.
  intros Hr Hq Hk st'.
  destruct (reachable_inv st Hr) as (I1 & _ & _ & I4).
  destruct (I1 k Hk) as [_ Hc].
  destruct (settle_flush k (Failed e) st Hq) as (_ & _ & D3 & D4 & D5).
  destruct (D5 e eq_refl) as [Cc Cp].
  fold st' in D3, D4, Cc, Cp.
  split.
  2:{ intros st0 k0 i Hq0 Hi m.
      destruct (module_settle_failed st0 k0 e i Hq0 Hi) as (M1 & M2 & M3 & _).
      fold m in M1, M2, M3.
      split; [exact M1|]. split; [exact M2|]. split; [rewrite M2; exact Hi|exact M3]. }
  split; [exact D4|]. split; [congruence|]. split; [exact Cp|].
  split; [congruence|].
  intros j Hj st''.
  assert (Hc' : conn st' = None) by congruence.
  unfold st'', CachedPromise.connectDB_call.
  rewrite Hc', Cp.
  unfold await_attempt, start_attempt; simpl.
  rewrite nth_error_app2, Nat.sub_diag by lia. simpl.
  split; [reflexivity|]. split; [reflexivity|].
  apply nth_error_set_nth_same. apply nth_error_Some. congruence.
Qed.

Lemma C7_witness :
  let st' := CachedPromise.flush (CachedPromise.settle 0 (Failed 7) one_waiting) in
  conn st' = None /\ promise st' = None /\ exited st' = false /\
  exited (ModuleConn.flush (ModuleConn.settle 1 (Failed 7)
                              (ModuleConn.call_all 2 (cold 2)))) = true.
Proof.
  assert (Hr : CachedPromise.reachable one_waiting).
  { exact (CachedPromise.reach_step (cold 2) one_waiting (CachedPromise.reach_cold 2)
             (CachedPromise.step_call 0 (cold 2) eq_refl eq_refl)). }
  destruct (C7_failed_attempt_not_cached one_waiting 0 7 Hr eq_refl eq_refl)
    as [(_ & Hc & Hp & He & _) Hm].
  split; [exact Hc|]. split; [exact Hp|]. split; [exact He|].
  exact (proj1 (Hm (ModuleConn.call_all 2 (cold 2)) 1 1 eq_refl eq_refl)).
Defined.

(* ================================================================== *)
(** ** Claim on the upload gate *)

Example upload_single_sample :
  upload_single (Some (mkFile "image/jpeg" (11 * 1024 * 1024) "big")) =
  MulterError file_too_large_error /\
  upload_single (Some (mkFile "application/pdf" 10 "doc")) =
  MulterError only_images_error /\
  upload_single (Some Sample.png) = MulterNext (Some Sample.png).
Proof. repeat split; reflexivity. Qed.

(** C9. An upload larger than 5 MiB, or whose MIME type does not start
    with ["image/"], is rejected by the multer gate before the controller
    runs: the route makes no call at all (no upload to Cloudinary, no
    [Course.create] or update) and the request goes to the error
    middleware. This holds for any controller behind the gate. *)
Theorem C9_rejected_upload_makes_no_call
        (handler : Request -> M Response) (r : Incoming) (f : File) :
  in_file r = Some f ->
  (fileSizeLimit < size f)%N \/ fileFilter f = false ->
  exists e, course_route handler r = ([], Ok (ToErrorHandler e)) /\
            (e = only_images_error \/ e = file_too_large_error).
Proof.
  intros Hf Hbad. unfold course_route, upload_single. rewrite Hf.
  destruct (fileFilter f) eqn:Ef.
  - destruct Hbad as [Hlt|Hff]; [|discriminate].
    apply N.ltb_lt in Hlt. rewrite Hlt.
    exists file_too_large_error. split; [reflexivity|right; reflexivity].
  - exists only_images_error. split; [reflexivity|left; reflexivity].
Qed.

Lemma C9_witness :
  exists e, course_route (createCourse (Sample.env_with true true))
              (mkIncoming "" [("title", JStr "X")]
                 (Some (mkFile "image/jpeg" (11 * 1024 * 1024) "big")) true)
            = ([], Ok (ToErrorHandler e)) /\
            (e = only_images_error \/ e = file_too_large_error).
Proof.
  apply (C9_rejected_upload_makes_no_call _
           (mkIncoming "" [("title", JStr "X")]
              (Some (mkFile "image/jpeg" (11 * 1024 * 1024) "big")) true)
           (mkFile "image/jpeg" (11 * 1024 * 1024) "big") eq_refl).
  left. vm_compute. reflexivity.
Defined.

(* ================================================================== *)
(** ** The configuration check *)

Lemma env_missing_false (penv : ProcessEnv) (k : string) :
  env_missing penv k = false <-> exists v, penv k = Some v /\ v <> "".
Proof.
  unfold env_missing. destruct (penv k) as [v|].
  - split.
    + intros H. exists v. split; [reflexivity|]. apply String.eqb_neq. exact H.
    + intros [v' [E Hne]]. injection E as <-. apply String.eqb_neq. exact Hne.
  - split; [discriminate|]. intros [v [E _]]. discriminate.
Qed.

(** X1. [validateCloudinaryConfig] returns normally exactly when the three
    Cloudinary variables are all set to non-empty strings; otherwise it
    throws an error whose message lists exactly the missing variables. *)
Theorem validateCloudinaryConfig_throws_iff_missing (penv : ProcessEnv) :
  (validateCloudinaryConfig penv = Ok tt <->
   forall k, In k required_vars -> exists v, penv k = Some v /\ v <> "") /\
  (forall e, validateCloudinaryConfig penv = Err e ->
   exists missing, missing <> [] /\
     (forall k, In k missing <-> In k required_vars /\ env_missing penv k = true) /\
     exn_message e = ("Cloudinary configuration missing: " ++ String.concat ", " missing)%string).
Proof.
  unfold validateCloudinaryConfig.
  destruct (filter (env_missing penv) required_vars) as [|m ms] eqn:F; simpl.
  - split; [split|].
    + intros _ k Hk. apply env_missing_false.
      destruct (env_missing penv k) eqn:E; [|reflexivity].
      assert (Hin : In k (filter (env_missing penv) required_vars))
        by (apply filter_In; split; assumption).
      rewrite F in Hin. contradiction.
    + intros _. reflexivity.
    + intros e H. discriminate.
  - split; [split|].
    + discriminate.
    + intros Hall. exfalso.
      assert (Hin : In m (filter (env_missing penv) required_vars))
        by (rewrite F; left; reflexivity).
      apply filter_In in Hin as [Hreq Hmiss].
      apply Hall, env_missing_false in Hreq. congruence.
    + intros e H. injection H as <-.
      exists (m :: ms). split; [discriminate|]. split; [|reflexivity].
      intros k. rewrite <- F. apply filter_In.
Qed.

Lemma validateCloudinaryConfig_witness :
  validateCloudinaryConfig penv_no_key <> Ok tt /\
  (forall e, validateCloudinaryConfig penv_no_key = Err e ->
   exists missing, missing <> [] /\
     (forall k, In k missing <-> In k required_vars /\ env_missing penv_no_key k = true) /\
     exn_message e = ("Cloudinary configuration missing: " ++ String.concat ", " missing)%string).
Proof.
  destruct (validateCloudinaryConfig_throws_iff_missing penv_no_key) as [[H1 _] H2].
  split; [|exact H2].
  intros H. destruct (H1 H "CLOUDINARY_API_KEY") as [v [E Hne]].
  - simpl. right. left. reflexivity.
  - vm_compute in E. injection E as <-. apply Hne. reflexivity.
Defined.

(* ================================================================== *)
(** ** Public ids *)

Lemma js_split_piece_no_sep (sep : ascii) (s x : string) :
  In x (js_split sep s) -> has_char sep x = false.
Proof.
  revert x. induction s as [|c s IH]; intros x Hin; simpl in Hin.
  - destruct Hin as [<-|[]]. reflexivity.
  - destruct (Ascii.eqb c sep) eqn:E.
    + destruct Hin as [<-|Hin]; [reflexivity|]. exact (IH x Hin).
    + destruct (js_split sep s) as [|p ps] eqn:F.
      * destruct Hin as [<-|[]]. simpl. rewrite E. reflexivity.
      * destruct Hin as [<-|Hin].
        -- simpl. rewrite E. apply IH. left. reflexivity.
        -- apply IH. right. exact Hin.
Qed.

Lemma js_split_piece_chars (sep c : ascii) (s x : string) :
  In x (js_split sep s) -> has_char c x = true -> has_char c s = true.
Proof.
  revert x. induction s as [|c0 s IH]; intros x Hin Hx; simpl in Hin.
  - destruct Hin as [<-|[]]. discriminate.
  - simpl. destruct (Ascii.eqb c0 sep).
    + destruct Hin as [<-|Hin]; [discriminate|].
      rewrite (IH x Hin Hx). apply orb_true_r.
    + destruct (js_split sep s) as [|p ps] eqn:F.
      * destruct Hin as [<-|[]]. simpl in Hx. rewrite orb_false_r in Hx.
        rewrite Hx. reflexivity.
      * destruct Hin as [<-|Hin].
        -- simpl in Hx. apply orb_true_iff in Hx as [Hx|Hx].
           ++ rewrite Hx. reflexivity.
           ++ rewrite (IH p (or_introl eq_refl) Hx). apply orb_true_r.
        -- rewrite (IH x (or_intror Hin) Hx). apply orb_true_r.
Qed.

Lemma In_last_nonempty {A} (l : list A) (d : A) : l <> [] -> In (last l d) l.
Proof.
  induction l as [|a l IH]; [congruence|]. intros _.
  destruct l as [|b l]; [left; reflexivity|].
  right. apply IH. discriminate.
Qed.

Lemma In_hd_nonempty {A} (l : list A) (d : A) : l <> [] -> In (hd d l) l.
Proof. destruct l; [congruence|]. intros _. left. reflexivity. Qed.

(** X2. A public id returned by [extractPublicId] contains neither a ['/']
    nor a ['.']: the folder path of the URL (such as [masters-academy/])
    is never part of it. *)
Theorem extractPublicId_no_folder (url : JSVal) (publicId : string) :
  extractPublicId url = Ok publicId ->
  has_char slash publicId = false /\ has_char dot publicId = false.
Proof.
  intros H. destruct url; try discriminate.
  rewrite extractPublicId_string in H. injection H as <-.
  set (F := last (js_split slash s) EmptyString).
  assert (HF : In F (js_split slash s))
    by (apply In_last_nonempty, js_split_nonempty).
  assert (HP : In (hd EmptyString (js_split dot F)) (js_split dot F))
    by (apply In_hd_nonempty, js_split_nonempty).
  split.
  - destruct (has_char slash (hd EmptyString (js_split dot F))) eqn:E; [|reflexivity].
    pose proof (js_split_piece_chars dot slash F _ HP E) as HFs.
    rewrite (js_split_piece_no_sep slash s F HF) in HFs. discriminate.
  - exact (js_split_piece_no_sep dot F _ HP).
Qed.

Lemma extractPublicId_no_folder_witness :
  extractPublicId (JStr Sample.old_url) = Ok "old1" /\
  has_char slash "old1" = false /\ has_char dot "old1" = false.
Proof.
  split; [reflexivity|].
  apply (extractPublicId_no_folder (JStr Sample.old_url) "old1").
  reflexivity.
Defined.

(** X3. The copy of [extractPublicId] without [try]/[catch] returns the
    same public id on every string, but on a value that is not a string it
    throws the raw [TypeError] of [url.split] where the guarded one throws
    ['Invalid Cloudinary URL format']. *)
Theorem extractPublicId_copies_agree_on_strings (url : JSVal) :
  (is_string url = true ->
   exists p, extractPublicId url = Ok p /\ extractPublicId_unguarded url = Ok (JStr p)) /\
  (is_string url = false ->
   extractPublicId url = Err invalid_url /\
   exists e, extractPublicId_unguarded url = Err e /\ exn_name e = "TypeError").
Proof.
  split; intros H.
  - destruct url; try discriminate.
    exists (hd EmptyString (js_split dot (last (js_split slash s) EmptyString))).
    split; [apply extractPublicId_string|].
    unfold extractPublicId_unguarded.
    destruct (js_split slash s) as [|p ps] eqn:E using rev_ind.
    + exfalso. exact (js_split_nonempty slash s E).
    + rewrite js_index_last, last_last.
      destruct (js_split dot p) as [|q qs] eqn:F.
      * exfalso. exact (js_split_nonempty dot p F).
      * reflexivity.
  - destruct url; try discriminate; split; try reflexivity;
      eexists; split; reflexivity.
Qed.

Lemma extractPublicId_copies_witness :
  (exists p, extractPublicId (JStr Sample.old_url) = Ok p /\
             extractPublicId_unguarded (JStr Sample.old_url) = Ok (JStr p)) /\
  extractPublicId JUndef = Err invalid_url /\
  (exists e, extractPublicId_unguarded JUndef = Err e /\ exn_name e = "TypeError").
Proof.
  split.
  - apply (proj1 (extractPublicId_copies_agree_on_strings (JStr Sample.old_url))).
    reflexivity.
  - apply (proj2 (extractPublicId_copies_agree_on_strings JUndef)).
    reflexivity.
Defined.

(* ================================================================== *)
(** ** The upload gate *)

(** X4. Whenever [upload.single('image')] hands the request on, it hands
    on the incoming file itself and never a different one; a file it hands
    on has an [image/*] type and at most 5 MiB; a request handed on with no
    file had none; and a file that is not an image, or is larger than
    5 MiB, always ends in an error passed to [next]. (Multer's other
    rejections, such as an unexpected field or busboy's limits, only add
    error outcomes, so none of this depends on them.) *)
Theorem upload_single_passes_iff (incoming : option File) :
  (forall f', upload_single incoming = MulterNext f' -> f' = incoming) /\
  (forall f, upload_single incoming = MulterNext (Some f) ->
     incoming = Some f /\ fileFilter f = true /\ (size f <= fileSizeLimit)%N) /\
  (upload_single incoming = MulterNext None -> incoming = None) /\
  (forall f, incoming = Some f ->
     fileFilter f = false \/ (fileSizeLimit < size f)%N ->
     exists e, upload_single incoming = MulterError e).
Proof.
  destruct incoming as [f|]; simpl.
  2:{ split; [congruence|]. split; [discriminate|]. split; [reflexivity|].
      intros f' H; discriminate. }
  destruct (fileFilter f) eqn:Ff.
  - destruct (N.ltb_spec fileSizeLimit (size f)) as [Hlt|Hle].
    + split; [discriminate|]. split; [discriminate|]. split; [discriminate|].
      intros f' _ _. eexists; reflexivity.
    + split; [congruence|].
      split; [intros f' H; injection H as <-; auto|].
      split; [discriminate|].
      intros f' H [Hf|Hlt]; injection H as <-; [congruence|lia].
  - split; [discriminate|]. split; [discriminate|]. split; [discriminate|].
    intros f' _ _. eexists; reflexivity.
Qed.

Lemma upload_single_passes_iff_witness :
  fileFilter (mkFile "image/jpeg" (5 * 1024 * 1024)%N "buf") = true /\
  (size (mkFile "image/jpeg" (5 * 1024 * 1024)%N "buf") <= fileSizeLimit)%N.
Proof.
  apply (proj2 (proj1 (proj2 (upload_single_passes_iff
                  (Some (mkFile "image/jpeg" (5 * 1024 * 1024)%N "buf"))))
                  (mkFile "image/jpeg" (5 * 1024 * 1024)%N "buf") eq_refl)).
Defined.

(* ================================================================== *)
(** ** More of the course controller *)

(** X5. [createCourse] answers 400 without any call when validation fails
    or no file came; and whenever it calls [Course.create], that call is
    preceded by exactly one upload, which returned a usable [secure_url],
    and the data carries that URL as its [image]. *)
Theorem createCourse_creates_only_after_upload (env : Env) (req : Request) :
  (validation_ok req = false \/ file req = None ->
   run (createCourse env req) = ([], Ok resp400)) /\
  (forall data, In (ECreate data) (fst (run (createCourse env req))) ->
   exists f r, file req = Some f /\
     uploadToCloudinary env (buffer f) = Ok r /\ usable_url r = true /\
     data = obj_set (parse_form_fields env (body req)) "image"
                    (get_field r "secure_url") /\
     truthy (obj_get data "image") = true /\
     fst (run (createCourse env req)) = [EUpload (buffer f); ECreate data]).
Proof.
  cbv [run createCourse try_catch bind call ret throw lift].
  split.
  - intros [H|H]; rewrite H; [reflexivity|].
    destruct (negb (validation_ok req)); reflexivity.
  - intros data Hin.
    destruct (validation_ok req); simpl in Hin; [|contradiction].
    destruct (file req) as [f|]; simpl in Hin; [|contradiction].
    destruct (uploadToCloudinary env (buffer f)) as [r|e] eqn:Hu;
      simpl in Hin; [|destruct Hin as [Hin|[]]; discriminate].
    destruct (usable_url r) eqn:Hr; simpl in Hin;
      [|destruct Hin as [Hin|[]]; discriminate].
    set (d := obj_set (parse_form_fields env (body req)) "image"
                      (get_field r "secure_url")) in *.
    assert (Hi : truthy (obj_get d "image") = true)
      by (unfold d; rewrite obj_get_obj_set; simpl;
          unfold usable_url in Hr; apply andb_true_iff in Hr as [_ Hr]; exact Hr).
    destruct (create env d); simpl in Hin |- *;
      (destruct Hin as [Hin|[Hin|[]]]; [discriminate|];
       injection Hin as <-;
       exists f, r; repeat split; assumption).
Qed.

Lemma createCourse_creates_only_after_upload_witness :
  run (createCourse (Sample.env_with true true) Sample.req_without_file)
  = ([], Ok resp400) /\
  (forall data, In (ECreate data)
     (fst (run (createCourse (Sample.env_with true true) Sample.req_with_file))) ->
   truthy (obj_get data "image") = true).
Proof.
  destruct (createCourse_creates_only_after_upload (Sample.env_with true true)
              Sample.req_without_file) as [H1 _].
  destruct (createCourse_creates_only_after_upload (Sample.env_with true true)
              Sample.req_with_file) as [_ H2].
  split.
  - apply H1. right. reflexivity.
  - intros data Hin. destruct (H2 data Hin) as [f [r [_ [_ [_ [_ [H _]]]]]]].
    exact H.
Defined.

(** [JSON.parse] of a FormData field, as [parse_field] does it. *)
Lemma obj_get_parse_field (env : Env) (o : Obj) (k k' : string) (fb : JSVal) :
  obj_get (parse_field env o k fb) k' =
  if String.eqb k' k then
    match obj_get o k with
    | JStr s =>
        if String.eqb s "" then JStr s
        else match json_parse env s with Ok v => v | Err _ => fb end
    | v => v
    end
  else obj_get o k'.
Proof.
  unfold parse_field.
  destruct (String.eqb k' k) eqn:E.
  - apply String.eqb_eq in E. subst k'.
    destruct (obj_get o k) eqn:G; simpl; try exact G.
    destruct (String.eqb s "") eqn:Es; simpl; [exact G|].
    destruct (json_parse env s); rewrite obj_get_obj_set, String.eqb_refl;
      reflexivity.
  - destruct (obj_get o k); try reflexivity.
    destruct (truthy (JStr s)); [|reflexivity].
    destruct (json_parse env s); rewrite obj_get_obj_set, E; reflexivity.
Qed.

(** X6. The data [createCourse] sends to [Course.create]: a non-empty
    [features] (or [instructor]) string is replaced by its [JSON.parse],
    or by [[]] (or [{}]) when it is not valid JSON; any other value of
    these fields, and every other field of the body but [image], is passed
    unchanged. *)
Theorem createCourse_form_fields (env : Env) (req : Request) (f : File) (r : JSVal) :
  validation_ok req = true -> file req = Some f ->
  uploadToCloudinary env (buffer f) = Ok r -> usable_url r = true ->
  let parsed (k : string) (fb : JSVal) :=
    match obj_get (body req) k with
    | JStr s =>
        if String.eqb s "" then JStr s
        else match json_parse env s with Ok v => v | Err _ => fb end
    | v => v
    end in
  exists data,
    fst (run (createCourse env req)) = [EUpload (buffer f); ECreate data] /\
    obj_get data "features" = parsed "features" (JArr []) /\
    obj_get data "instructor" = parsed "instructor" (JObj []) /\
    (forall k, k <> "image" -> k <> "features" -> k <> "instructor" ->
     obj_get data k = obj_get (body req) k).
Proof.
  intros Hv Hf Hu Hr parsed.
  set (data := obj_set (parse_form_fields env (body req)) "image"
                       (get_field r "secure_url")).
  exists data. split; [|split; [|split]].
  - cbv [run createCourse try_catch bind call ret throw lift].
    rewrite Hv, Hf; simpl. rewrite Hu, Hr; simpl. fold data.
    destruct (create env data); reflexivity.
  - unfold data, parse_form_fields.
    rewrite obj_get_obj_set, !obj_get_parse_field. reflexivity.
  - unfold data, parse_form_fields.
    rewrite obj_get_obj_set, !obj_get_parse_field. reflexivity.
  - intros k H1 H2 H3. unfold data, parse_form_fields.
    rewrite obj_get_obj_set, !obj_get_parse_field.
    apply String.eqb_neq in H1, H2, H3. rewrite H1, H2, H3. reflexivity.
Qed.

Lemma createCourse_form_fields_witness :
  exists data,
    fst (run (createCourse env_bad_json req_bad_features)) = [EUpload "buf"; ECreate data] /\
    obj_get data "features" = JArr [] /\
    obj_get data "title" = JStr "X".
Proof.
  destruct (createCourse_form_fields env_bad_json req_bad_features Sample.png
              (JObj [("secure_url", JStr Sample.new_url)])
              eq_refl eq_refl eq_refl eq_refl)
    as [data [Htr [Hfe [_ Hk]]]].
  exists data. split; [exact Htr|]. split; [exact Hfe|].
  apply Hk; discriminate.
Defined.

(** X7. [updateCourse] without a new file answers 500 after the lookup
    alone when the body has its own field [hasOwnProperty]. Otherwise it
    sends as [image] the body's [image] when the body has that key, unless
    it is an empty object or empty array, which counts as absent; and the
    course's current image in the other cases. An explicit [null] or ['']
    therefore clears the image. *)
Theorem updateCourse_image_without_file (env : Env) (req : Request) (c : Course) :
  validation_ok req = true ->
  findById env (params_id req) = Ok (Some c) ->
  file req = None ->
  (obj_has (body req) "hasOwnProperty" = true ->
   run (updateCourse env req) = ([EFindById (params_id req)], Ok resp500)) /\
  (obj_has (body req) "hasOwnProperty" = false ->
   exists data,
    fst (run (updateCourse env req)) =
      [EFindById (params_id req); EUpdate (params_id req) data] /\
    obj_get data "image" =
      (if obj_has (body req) "image" &&
          negb (truthy (obj_get (body req) "image") &&
                is_empty_object (obj_get (body req) "image"))
       then obj_get (body req) "image" else course_image c)).
Proof.
  intros Hv Hf Hfile.
  set (u := initial_update_data env (body req)).
  assert (Hu : obj_has u "hasOwnProperty" = obj_has (body req) "hasOwnProperty")
    by (unfold u; apply initial_update_data_has_other; discriminate).
  split; intros Hh.
  - cbv [run updateCourse try_catch bind call ret throw lift].
    rewrite Hv, Hf, Hfile; simpl. fold u. rewrite Hu, Hh. reflexivity.
  - set (data := if obj_has u "image" then u
                 else obj_set u "image" (course_image c)).
    exists data. split.
    + cbv [run updateCourse try_catch bind call ret throw lift].
      rewrite Hv, Hf, Hfile; simpl. fold u. rewrite Hu, Hh. fold data.
      destruct (findByIdAndUpdate env (params_id req) data) as [[x|]|e];
        reflexivity.
    + assert (Hget : obj_get u "image" =
                     obj_get (if truthy (obj_get (body req) "image") &&
                                 is_empty_object (obj_get (body req) "image")
                              then obj_del (body req) "image" else body req) "image")
        by (unfold u, initial_update_data, parse_form_fields;
            rewrite !obj_get_parse_field; reflexivity).
      assert (Hhas : obj_has u "image" =
                     obj_has (if truthy (obj_get (body req) "image") &&
                                 is_empty_object (obj_get (body req) "image")
                              then obj_del (body req) "image" else body req) "image")
        by (unfold u, initial_update_data, parse_form_fields;
            rewrite !obj_has_parse_field; reflexivity).
      unfold data.
      destruct (truthy (obj_get (body req) "image") &&
                is_empty_object (obj_get (body req) "image")); simpl in Hget, Hhas.
      * rewrite obj_has_obj_del in Hhas. simpl in Hhas. rewrite Hhas.
        rewrite obj_get_obj_set. rewrite andb_false_r. reflexivity.
      * rewrite andb_true_r, Hhas.
        destruct (obj_has (body req) "image"); [exact Hget|].
        rewrite obj_get_obj_set. reflexivity.
Qed.

Lemma updateCourse_image_without_file_witness :
  (exists data,
    fst (run (updateCourse (Sample.env_with true true) req_empty_image)) =
      [EFindById "c1"; EUpdate "c1" data] /\
    obj_get data "image" = JStr Sample.old_url) /\
  run (updateCourse (Sample.env_with true true) req_own_has_own_property)
  = ([EFindById "c1"], Ok resp500).
Proof.
  split.
  - exact (proj2 (updateCourse_image_without_file (Sample.env_with true true)
                    req_empty_image Sample.course1 eq_refl eq_refl eq_refl) eq_refl).
  - exact (proj1 (updateCourse_image_without_file (Sample.env_with true true)
                    req_own_has_own_property Sample.course1 eq_refl eq_refl eq_refl)
                 eq_refl).
Defined.

Lemma delete_course_image_with_destroy (env : Env) (d : string -> Result JSVal)
      (c : Course) (tr : list Event) :
  delete_course_image (with_destroy env d) c tr = delete_course_image env c tr.
Proof. rewrite !delete_course_image_trace. reflexivity. Qed.

(** X8. The outcome of Cloudinary's [destroy] never changes what
    [updateCourse] and [deleteCourse] do: for any two behaviours of
    [destroy], the calls made and the response are the same (the old
    image's deletion is best effort). *)
Theorem destroy_outcome_never_observed (env : Env) (d : string -> Result JSVal)
        (req : Request) :
  run (updateCourse (with_destroy env d) req) = run (updateCourse env req) /\
  run (deleteCourse (with_destroy env d) req) = run (deleteCourse env req).
Proof.
  split.
  - cbv [run updateCourse try_catch bind call ret throw lift].
    cbn [findById uploadToCloudinary findByIdAndUpdate with_destroy].
    destruct (negb (validation_ok req)); [reflexivity|].
    destruct (findById env (params_id req)) as [[c|]|e]; try reflexivity.
    unfold initial_update_data, parse_form_fields, parse_field.
    cbn [json_parse with_destroy].
    destruct (file req) as [f|]; [|reflexivity].
    destruct (uploadToCloudinary env (buffer f)) as [r|e]; [|reflexivity].
    destruct (usable_url r); [|reflexivity].
    rewrite delete_course_image_with_destroy. reflexivity.
  - cbv [run deleteCourse try_catch bind call ret throw lift].
    cbn [findById findByIdAndDelete with_destroy].
    destruct (findById env (params_id req)) as [[c|]|e]; try reflexivity.
    rewrite delete_course_image_with_destroy. reflexivity.
Qed.

(** X9. When [Course.findById] finds no course, [updateCourse] (after
    validation) and [deleteCourse] answer 404 after that lookup alone: no
    upload, no delete and no write. When the lookup throws, [updateCourse]
    maps the error (400 for a [CastError] or [ValidationError], 500
    otherwise) while [deleteCourse] always answers 500. *)
Theorem course_lookup_outcomes (env : Env) (req : Request) :
  (findById env (params_id req) = Ok None ->
   (validation_ok req = true ->
    run (updateCourse env req) = ([EFindById (params_id req)], Ok resp404)) /\
   run (deleteCourse env req) = ([EFindById (params_id req)], Ok resp404)) /\
  (forall e, findById env (params_id req) = Err e ->
   (validation_ok req = true ->
    run (updateCourse env req) = ([EFindById (params_id req)], Ok (error_response e))) /\
   run (deleteCourse env req) = ([EFindById (params_id req)], Ok resp500)).
Proof.
  cbv [run updateCourse deleteCourse try_catch bind call ret throw lift].
  split; [|intros e]; intros Hf; rewrite Hf;
    (split; [intros Hv; rewrite Hv|]); reflexivity.
Qed.

Lemma course_lookup_outcomes_witness :
  run (updateCourse env_cast_error Sample.req_with_file) = ([EFindById "c1"], Ok resp400) /\
  run (deleteCourse env_cast_error Sample.req_with_file) = ([EFindById "c1"], Ok resp500).
Proof.
  destruct (proj2 (course_lookup_outcomes env_cast_error Sample.req_with_file)
              (mkExn "CastError" "Cast to ObjectId failed") eq_refl) as [H1 H2].
  split; [exact (H1 eq_refl)|exact H2].
Defined.

(* ================================================================== *)
(** ** The first course controller *)

Lemma invalid_path_false (p : JSVal) :
  invalid_path p = false ->
  exists s, p = JStr s /\ js_includes s "res.cloudinary.com" = true.
Proof.
  unfold invalid_path. intros H. destruct p; simpl in H; rewrite ?orb_true_r in H;
    try discriminate.
  apply orb_false_iff in H as [_ H].
  apply orb_false_iff in H as [_ H].
  apply negb_false_iff in H. exists s. split; [reflexivity|exact H].
Qed.

(** X10. In the first controller, [createCourse] answers 400 without
    calling [Course.create] when [req.file] is present but empty or its
    [path] is not a string containing [res.cloudinary.com]; whenever it
    does call [Course.create] with a file, the data's [image] is that
    Cloudinary path, and without a file the parsed body goes to
    [Course.create] with no image added. *)
Theorem createCourseV1_image_is_cloudinary_path (env : Env) (req : RequestV1) :
  (v1_valid req = true -> truthy (v1_file req) = true ->
   file_rejected (v1_file req) = true ->
   run (createCourseV1 env req) = ([], Ok resp400)) /\
  (forall data, In (ECreate data) (fst (run (createCourseV1 env req))) ->
   v1_valid req = true /\
   (truthy (v1_file req) = true ->
    exists s, get_field (v1_file req) "path" = JStr s /\
      js_includes s "res.cloudinary.com" = true /\ obj_get data "image" = JStr s) /\
   (truthy (v1_file req) = false -> data = parse_form_fields env (v1_body req))).
Proof.
  cbv [run createCourseV1 try_catch bind call ret throw lift].
  split.
  - intros Hv Ht Hr. rewrite Hv, Ht, Hr. reflexivity.
  - intros data Hin.
    destruct (v1_valid req); simpl in Hin; [|contradiction].
    split; [reflexivity|].
    destruct (truthy (v1_file req)) eqn:Ht.
    + destruct (file_rejected (v1_file req)) eqn:Hr; simpl in Hin; [contradiction|].
      unfold file_rejected in Hr.
      apply orb_false_iff in Hr as [_ Hp].
      destruct (invalid_path_false _ Hp) as [s [Es Hs]].
      destruct (create env _); simpl in Hin;
        (destruct Hin as [Hin|[]]; injection Hin as <-;
         split; [|discriminate]; intros _;
         exists s; split; [exact Es|]; split; [exact Hs|];
         rewrite obj_get_obj_set, Es; reflexivity).
    + destruct (create env _); simpl in Hin;
        (destruct Hin as [Hin|[]]; injection Hin as <-;
         split; [discriminate|]; intros _; reflexivity).
Qed.

Lemma createCourseV1_image_is_cloudinary_path_witness :
  run (createCourseV1 (Sample.env_with true true) req_v1_bad_path) = ([], Ok resp400).
Proof.
  apply (proj1 (createCourseV1_image_is_cloudinary_path
                  (Sample.env_with true true) req_v1_bad_path));
    reflexivity.
Defined.

(** X11. In the first controller, [updateCourse] on an existing course
    with a [req.file]: a rejected file (empty, or a path that is not a
    Cloudinary URL) is answered 400 after the lookup alone, with neither
    the old image deleted nor the record written; an accepted one deletes
    the old image (best effort) and then writes the record with the new
    path as [image]. *)
Theorem updateCourseV1_with_file (env : Env) (req : RequestV1) (c : Course) :
  v1_valid req = true ->
  findById env (v1_id req) = Ok (Some c) ->
  truthy (v1_file req) = true ->
  (file_rejected (v1_file req) = true ->
   run (updateCourseV1 env req) = ([EFindById (v1_id req)], Ok resp400)) /\
  (file_rejected (v1_file req) = false ->
   let data := obj_set (initial_update_data env (v1_body req)) "image"
                       (get_field (v1_file req) "path") in
   run (updateCourseV1 env req) =
   ([EFindById (v1_id req)] ++ old_image_deletes c ++ [EUpdate (v1_id req) data],
    Ok (update_response (findByIdAndUpdate env (v1_id req) data)))).
Proof.
  intros Hv Hf Ht.
  split; intros Hr; [|intros data];
    cbv [run updateCourseV1 try_catch bind call ret throw lift];
    rewrite Hv, Hf; simpl; rewrite Ht, Hr; [reflexivity|].
  rewrite delete_course_image_trace. fold data.
  unfold update_response.
  destruct (findByIdAndUpdate env (v1_id req) data) as [[u|]|e];
    simpl; rewrite <- ?app_assoc; reflexivity.
Qed.

Lemma updateCourseV1_with_file_witness :
  run (updateCourseV1 (Sample.env_with true true) req_v1_bad_path)
  = ([EFindById "c1"], Ok resp400) /\
  run (updateCourseV1 (Sample.env_with true true) req_v1_good_path)
  = ([EFindById "c1"; EDestroy "old1";
      EUpdate "c1" [("image", JStr Sample.new_url); ("title", JStr "X")]],
     Ok resp200).
Proof.
  split.
  - exact (proj1 (updateCourseV1_with_file (Sample.env_with true true)
                    req_v1_bad_path Sample.course1 eq_refl eq_refl eq_refl) eq_refl).
  - exact (proj2 (updateCourseV1_with_file (Sample.env_with true true)
                    req_v1_good_path Sample.course1 eq_refl eq_refl eq_refl) eq_refl).
Defined.

(* ================================================================== *)
(** ** The course listing *)

Lemma obj_get_set_other (o : Obj) (k k' : string) (v : JSVal) :
  k' <> k -> obj_get (obj_set o k v) k' = obj_get o k'.
Proof.
  intros H. rewrite obj_get_obj_set.
  apply String.eqb_neq in H. rewrite H. reflexivity.
Qed.

(** The filter does not read [page]. *)
Lemma build_query_page (q : Obj) (v : JSVal) :
  build_query (obj_set q "page" v) = build_query q.
Proof.
  unfold build_query.
  repeat rewrite (obj_get_set_other q "page") by discriminate.
  reflexivity.
Qed.

Lemma js_to_nat_bounded (v : JSVal) (n : nat) :
  js_to_nat v = Some n -> (N.of_nat n <= max_safe)%N.
Proof.
  assert (Hs : forall m, safe_nat m = Some n -> (N.of_nat n <= max_safe)%N).
  { intros m. unfold safe_nat. destruct (N.leb_spec m max_safe) as [H|H];
      [|discriminate].
    intros E. injection E as <-. rewrite N2Nat.id. exact H. }
  destruct v as [| | |m|[|c s']| |]; cbn [js_to_nat]; try discriminate.
  - apply Hs.
  - destruct (digits_value 0 (String c s')); [apply Hs|discriminate].
Qed.

Lemma getCourses_page (lenv : ListEnv) (q : Obj) (limit p : nat)
      (cs : list Course) (tot : nat) :
  js_to_nat (with_default (obj_get q "limit") (JNum 10)) = Some limit ->
  1 <= p ->
  (N.of_nat p <= max_safe)%N ->
  (N.of_nat ((p - 1) * limit) <= max_safe)%N ->
  find_page lenv (build_query q) limit ((p - 1) * limit) = Ok cs ->
  countDocuments lenv (build_query q) = Ok tot ->
  (N.of_nat tot <= max_safe)%N ->
  getCourses lenv (obj_set q "page" (JNum p)) =
  Some (Ok (mkListing cs p (page_count tot limit) tot)).
Proof.
  intros Hl Hp Hps Hsk Hf Hc Ht. unfold getCourses.
  rewrite build_query_page.
  rewrite (obj_get_set_other q "page" "limit") by discriminate.
  rewrite obj_get_obj_set, String.eqb_refl. cbn [with_default js_to_nat].
  unfold safe_nat at 1.
  rewrite (proj2 (N.leb_le _ _) Hps), Nat2N.id, Hl.
  cbv beta iota zeta.
  replace (Nat.eqb p 0) with false by (symmetry; apply Nat.eqb_neq; lia).
  rewrite (proj2 (N.ltb_ge _ _) Hsk). cbv beta iota.
  rewrite Hf, Hc, (proj2 (N.ltb_ge _ _) Ht). reflexivity.
Qed.

(** The pages [1 .. ceil(len / limit)] start inside the list. *)
Lemma page_bounds (len limit p : nat) :
  0 < limit -> 1 <= p <= (len + limit - 1) / limit ->
  (p - 1) * limit < len /\ p <= len.
Proof.
  intros Hl Hp.
  pose proof (Nat.Div0.mul_div_le (len + limit - 1) limit) as Hd.
  set (n := (len + limit - 1) / limit) in *.
  assert (H1 : (p - 1) * limit <= (n - 1) * limit)
    by (apply Nat.mul_le_mono_r; lia).
  rewrite Nat.mul_sub_distr_r in H1.
  assert (H2 : (p - 1) * limit < len) by nia.
  split; [exact H2|nia].
Qed.

Lemma windows_cover (limit n : nat) (all : list Course) :
  0 < limit -> length all <= n * limit ->
  concat (map (fun p => firstn limit (skipn (p * limit) all)) (seq 0 n)) = all.
Proof.
  intros Hl. revert all.
  induction n as [|n IH]; intros all Hlen.
  - destruct all; [reflexivity|]. simpl in Hlen. lia.
  - cbn [seq map concat]. rewrite <- seq_shift, map_map.
    rewrite (map_ext (fun x => firstn limit (skipn (S x * limit) all))
                     (fun x => firstn limit (skipn (x * limit) (skipn limit all)))).
    + rewrite IH.
      * simpl skipn. apply firstn_skipn.
      * rewrite length_skipn. simpl in Hlen. lia.
    + intros x. rewrite skipn_skipn. f_equal. f_equal. simpl. lia.
Qed.

Lemma ceil_div_cover (n limit : nat) :
  0 < limit -> n <= (n + limit - 1) / limit * limit.
Proof.
  intros Hl.
  pose proof (Nat.div_mod (n + limit - 1) limit ltac:(lia)) as Hdm.
  pose proof (Nat.mod_upper_bound (n + limit - 1) limit ltac:(lia)) as Hm.
  set (d := (n + limit - 1) / limit) in *.
  set (r := (n + limit - 1) mod limit) in *.
  rewrite Nat.mul_comm. lia.
Qed.

(** X12. With a positive [limit], on a database that answers every page
    query from one order [all] of the matching courses (as when their
    [createdAt] values differ and nothing is written between the
    requests), asking [getCourses] for the pages [1 .. pages] in turn
    returns every matching course exactly once, in that order: page [p]
    reports [current = p], the same [pages] ([Math.ceil(total / limit)])
    and [total], and holds the non-empty window of at most [limit]
    courses from [(p - 1) * limit]. *)
Theorem getCourses_pages_cover (lenv : ListEnv) (q : Obj) (limit : nat)
        (all : list Course) :
  0 < limit ->
  js_to_nat (with_default (obj_get q "limit") (JNum 10)) = Some limit ->
  (forall skip, find_page lenv (build_query q) limit skip =
                Ok (page_window skip limit all)) ->
  countDocuments lenv (build_query q) = Ok (length all) ->
  (N.of_nat (length all) <= max_safe)%N ->
  let n := (length all + limit - 1) / limit in
  (forall p, 1 <= p <= n ->
   exists l, getCourses lenv (obj_set q "page" (JNum p)) = Some (Ok l) /\
     current l = p /\ pages l = Some n /\ total l = length all /\
     courses l = firstn limit (skipn ((p - 1) * limit) all) /\
     length (courses l) <= limit /\ courses l <> []) /\
  concat (map (fun p => match getCourses lenv (obj_set q "page" (JNum p)) with
                        | Some (Ok l) => courses l
                        | _ => []
                        end) (seq 1 n)) = all.
Proof.
  intros Hl Hlim Hf Hc Hmax n.
  assert (Hw : forall skip, page_window skip limit all = firstn limit (skipn skip all)).
  { intros skip. unfold page_window.
    replace (Nat.eqb limit 0) with false by (symmetry; apply Nat.eqb_neq; lia).
    reflexivity. }
  assert (Hpage : forall p, 1 <= p <= n ->
    getCourses lenv (obj_set q "page" (JNum p)) =
    Some (Ok (mkListing (firstn limit (skipn ((p - 1) * limit) all)) p
                        (Some n) (length all)))).
  { intros p Hp. destruct (page_bounds (length all) limit p Hl Hp) as [B1 B2].
    rewrite <- Hw.
    rewrite (getCourses_page lenv q limit p _ (length all) Hlim ltac:(lia)
               ltac:(lia) ltac:(lia) (Hf _) Hc Hmax).
    unfold page_count.
    replace (Nat.eqb limit 0) with false by (symmetry; apply Nat.eqb_neq; lia).
    reflexivity. }
  split.
  - intros p Hp. rewrite (Hpage p Hp).
    eexists. split; [reflexivity|]. simpl.
    split; [reflexivity|]. split; [reflexivity|]. split; [reflexivity|].
    split; [reflexivity|]. split; [apply firstn_le_length|].
    destruct (page_bounds (length all) limit p Hl Hp) as [B1 _].
    intros E. apply (f_equal (@length Course)) in E.
    rewrite length_firstn, length_skipn in E. simpl in E. lia.
  - rewrite (map_ext_in _ (fun p => firstn limit (skipn ((p - 1) * limit) all))).
    + rewrite <- seq_shift, map_map.
      rewrite (map_ext (fun x => firstn limit (skipn ((S x - 1) * limit) all))
                       (fun x => firstn limit (skipn (x * limit) all)))
        by (intros x; simpl; rewrite Nat.sub_0_r; reflexivity).
      apply windows_cover; [exact Hl|].
      apply ceil_div_cover. exact Hl.
    + intros p Hp. apply in_seq in Hp.
      rewrite (Hpage p ltac:(lia)). reflexivity.
Qed.

Lemma getCourses_pages_cover_witness :
  concat (map (fun p => match getCourses ListSample.lenv3
                                (obj_set ListSample.q2 "page" (JNum p)) with
                        | Some (Ok l) => courses l
                        | _ => []
                        end) (seq 1 2)) = ListSample.all3.
Proof.
  exact (proj2 (getCourses_pages_cover ListSample.lenv3 ListSample.q2 2
                  ListSample.all3 ltac:(lia) eq_refl (fun _ => eq_refl) eq_refl
                  ltac:(unfold max_safe; simpl; lia))).
Defined.

(** X13. With [limit] 0, every page of [getCourses] (from page 1 on) asks
    the database for the same query with no limit and a skip of 0, so
    every page returns the same courses, all of them where the database
    reads a zero limit as no limit; [pages] is [null] ([Math.ceil] of a
    division by zero), [total] is the count, and [current] is the page
    number, which the model keeps at most [2^53 - 1] so that [parseInt]
    is exact. *)
Theorem getCourses_limit_zero (lenv : ListEnv) (q : Obj) (page : nat)
        (cs : list Course) (tot : nat) :
  js_to_nat (with_default (obj_get q "limit") (JNum 10)) = Some 0 ->
  js_to_nat (with_default (obj_get q "page") (JNum 1)) = Some page ->
  1 <= page ->
  find_page lenv (build_query q) 0 0 = Ok cs ->
  countDocuments lenv (build_query q) = Ok tot ->
  (N.of_nat tot <= max_safe)%N ->
  getCourses lenv q = Some (Ok (mkListing cs page None tot)) /\
  (N.of_nat page <= max_safe)%N /\
  (forall all, cs = page_window 0 0 all -> cs = all).
Proof.
  intros Hl Hp H1 Hf Hc Ht. split; [|split].
  - unfold getCourses.
    rewrite Hp, Hl. cbv beta iota zeta.
    rewrite Nat.mul_0_r.
    replace (Nat.eqb page 0) with false by (symmetry; apply Nat.eqb_neq; lia).
    cbv beta iota. rewrite Hf, Hc, (proj2 (N.ltb_ge _ _) Ht). reflexivity.
  - exact (js_to_nat_bounded _ _ Hp).
  - intros all ->. reflexivity.
Qed.

Lemma getCourses_limit_zero_witness :
  getCourses ListSample.lenv3 ListSample.q0
  = Some (Ok (mkListing ListSample.all3 3 None 3)).
Proof.
  exact (proj1 (getCourses_limit_zero ListSample.lenv3 ListSample.q0 3
           ListSample.all3 3 eq_refl eq_refl ltac:(lia) eq_refl eq_refl
           ltac:(unfold max_safe; simpl; lia))).
Defined.

(* ================================================================== *)
(** ** The connection caches, once connected *)

Lemma cp_step_keeps_conn (st st' : Cache) (h : nat) :
  conn st = Some h -> CachedPromise.step st st' ->
  length (attempts st') = length (attempts st) /\ exists h', conn st' = Some h'.
Proof.
  intros Hc Hs. destruct Hs as [i st Hq Hi|k o st Hq Hk|st Hq].
  - unfold CachedPromise.connectDB_call. rewrite Hc. simpl.
    split; [reflexivity|]. exists h. exact Hc.
  - unfold CachedPromise.settle, settle_attempt.
    destruct o; simpl; rewrite length_set_nth; split; try reflexivity;
      exists h; exact Hc.
  - unfold CachedPromise.resume.
    destruct (microtasks st) as [|[i o] q]; [split; [reflexivity|exists h; exact Hc]|].
    destruct o as [h'|e]; simpl; split; try reflexivity.
    + exists h'. reflexivity.
    + exists h. exact Hc.
Qed.

(** X14. With the cached-promise [connectDB], once a connection is cached
    it is never dropped: along any run of the event loop from there, a
    connection stays cached, no new connect attempt is ever started, and
    every call returns the cached connection at once. *)
Theorem cached_connection_kept (st st' : Cache) (h : nat) :
  conn st = Some h -> cp_steps st st' ->
  length (attempts st') = length (attempts st) /\
  exists h', conn st' = Some h' /\
    forall i, CachedPromise.connectDB_call i st' =
              set_caller i (Returned (Connected h')) st'.
Proof.
  intros Hc Hs. revert h Hc.
  induction Hs as [st|st st1 st2 Hstep Hs IH]; intros h Hc.
  - split; [reflexivity|]. exists h. split; [exact Hc|].
    intros i. unfold CachedPromise.connectDB_call. rewrite Hc. reflexivity.
  - destruct (cp_step_keeps_conn st st1 h Hc Hstep) as [Hlen [h1 Hc1]].
    destruct (IH h1 Hc1) as [Hlen2 Hrest].
    split; [lia|exact Hrest].
Qed.

Lemma cached_connection_kept_witness :
  length (attempts (CachedPromise.connectDB_call 1 hot)) = 1 /\
  exists h', conn (CachedPromise.connectDB_call 1 hot) = Some h' /\
    forall i, CachedPromise.connectDB_call i (CachedPromise.connectDB_call 1 hot) =
              set_caller i (Returned (Connected h')) (CachedPromise.connectDB_call 1 hot).
Proof.
  exact (cached_connection_kept hot (CachedPromise.connectDB_call 1 hot) 7 eq_refl
           (cp_next _ _ _ (CachedPromise.step_call 1 hot eq_refl eq_refl) (cp_refl _))).
Defined.

(** X15. With the module-level [conn] of the second [connectDB], a call
    returns the cached connection without connecting, but after the
    connection's ['error'] or ['disconnected'] event the next call starts
    a fresh connect attempt and waits on it. *)
Theorem module_conn_reconnects_after_drop (st : Cache) (h i : nat) :
  conn st = Some h ->
  ModuleConn.connectDB_call i st = set_caller i (Returned (Connected h)) st /\
  attempts (ModuleConn.connectDB_call i (ModuleConn.dropped st)) =
    attempts st ++ [Pending] /\
  (i < length (callers st) ->
   nth_error (callers (ModuleConn.connectDB_call i (ModuleConn.dropped st))) i =
   Some (Waiting (length (attempts st)))).
Proof.
  intros Hc. unfold ModuleConn.connectDB_call, ModuleConn.dropped.
  rewrite Hc. split; [reflexivity|]. simpl.
  unfold await_attempt, start_attempt. simpl.
  rewrite nth_error_app2, Nat.sub_diag by lia. simpl.
  split; [reflexivity|].
  intros Hi. apply nth_error_set_nth_same. exact Hi.
Qed.

Lemma module_conn_reconnects_after_drop_witness :
  attempts (ModuleConn.connectDB_call 1 (ModuleConn.dropped hot2)) =
    [Settled (Connected 7); Pending] /\
  nth_error (callers (ModuleConn.connectDB_call 1 (ModuleConn.dropped hot2))) 1 =
    Some (Waiting 1).
Proof.
  destruct (module_conn_reconnects_after_drop hot2 7 1 eq_refl) as [_ [H1 H2]].
  split; [exact H1|]. exact (H2 ltac:(simpl; lia)).
Defined.
